(** * DebouncedTextInput: a debounced text input over React hooks

    Shallow embedding of [src/components/Inputs/DebouncedTextInput/index.tsx].

    The component is a function of its props that uses three hooks:
    [useState] for [internalValue], [useRef] for [debounceTimerRef] and two
    [useEffect]s.  The embedding makes the hook cells, the memoised
    dependency arrays, the host's timer table and the calls made to the
    owner's [onChange] explicit fields of one record, [World], and turns each
    entry point (mount, keystroke, re-render by the owner, passage of time,
    unmount) into a function on that record.

    Conventions of the runtime that the component is written against, as
    modelled here:
    - a render reads the hook cells and closes over what it read; effects run
      after the render, clean-ups of the effects whose dependencies changed
      first, then the effect bodies in declaration order;
    - a state setter called from an event handler is followed by its render
      before the host runs anything else;
    - a state setter called from an effect only queues a render: the host
      lets some time pass first, in which a timer that comes due runs.  How
      long is the host's business; it is the parameter [lag] of the model and
      every statement holds whatever it is;
    - the host keeps a timer's delay when it lies between 1 and 2^31-1
      milliseconds and waits 1 millisecond otherwise ([host_delay]);
    - a timer handle is never falsy (a positive integer in a browser, an
      object under Node), hence [positive];
    - [debounceMs] is a whole number of milliseconds. *)

From Stdlib Require Import ZArith NArith PArith List String Bool Lia.
Import ListNotations.

Local Open Scope string_scope.
Local Open Scope Z_scope.

Module DebouncedTextInput.

(** ** Props and the values the component hands out *)

(** Function objects are compared by reference; a callback is its identity. *)
Definition Callback := nat.

(** The props the controller reads.  [label], [placeHolder], [error] and
    [onBlur] are forwarded untouched to the widget and take no part in any
    hook. *)
Record Props := mkProps {
  value : option string;
  onChange : option Callback;
  debounceMs : option Z
}.

(** The pseudo change event built in the timer callback. *)
Record ChangeEvent := mkChangeEvent {
  target_value : string;
  currentTarget_value : string
}.

(** One call [onChange(event)], tagged with the handle of the timer whose
    expiry made it. *)
Record Commit := mkCommit {
  c_timer : positive;
  c_callback : Callback;
  c_event : ChangeEvent
}.

(** A pending [setTimeout]: the delay it was given, the time elapsed since,
    and what its callback closes over ([onChange] and [internalValue] of the
    render that created it). *)
Record Timer := mkTimer {
  t_id : positive;
  t_delay : Z;
  t_elapsed : Z;
  t_onChange : option Callback;
  t_internalValue : string
}.

(** Dependency array of the second effect:
    [[internalValue, value, onChange, debounceMs]]. *)
Definition Deps2 : Type := string * option string * option Callback * Z.

Record World := mkWorld {
  mounted : bool;
  props : Props;
  internalValue : string;               (* the useState cell *)
  debounceTimerRef : option positive;   (* the useRef cell, None = null *)
  deps1 : option (option string);       (* memoised [value], None before mount *)
  deps2 : option Deps2;                 (* memoised deps of the debounce effect *)
  widget : string;                      (* value= handed to the text input *)
  timers : list Timer;                  (* the host's table of pending timers *)
  next_id : positive;                   (* next fresh timer handle *)
  log : list Commit                     (* calls made to onChange, oldest first *)
}.

(** Field updates. *)
Definition set_mounted (b : bool) (w : World) : World :=
  mkWorld b (props w) (internalValue w) (debounceTimerRef w) (deps1 w)
          (deps2 w) (widget w) (timers w) (next_id w) (log w).
Definition set_props (p : Props) (w : World) : World :=
  mkWorld (mounted w) p (internalValue w) (debounceTimerRef w) (deps1 w)
          (deps2 w) (widget w) (timers w) (next_id w) (log w).
Definition setInternalValue (s : string) (w : World) : World :=
  mkWorld (mounted w) (props w) s (debounceTimerRef w) (deps1 w)
          (deps2 w) (widget w) (timers w) (next_id w) (log w).
Definition set_ref (r : option positive) (w : World) : World :=
  mkWorld (mounted w) (props w) (internalValue w) r (deps1 w)
          (deps2 w) (widget w) (timers w) (next_id w) (log w).
Definition set_deps (d1 : option string) (d2 : Deps2) (w : World) : World :=
  mkWorld (mounted w) (props w) (internalValue w) (debounceTimerRef w)
          (Some d1) (Some d2) (widget w) (timers w) (next_id w) (log w).
Definition set_widget (s : string) (w : World) : World :=
  mkWorld (mounted w) (props w) (internalValue w) (debounceTimerRef w)
          (deps1 w) (deps2 w) s (timers w) (next_id w) (log w).
Definition set_timers (ts : list Timer) (w : World) : World :=
  mkWorld (mounted w) (props w) (internalValue w) (debounceTimerRef w)
          (deps1 w) (deps2 w) (widget w) ts (next_id w) (log w).
Definition set_next_id (n : positive) (w : World) : World :=
  mkWorld (mounted w) (props w) (internalValue w) (debounceTimerRef w)
          (deps1 w) (deps2 w) (widget w) (timers w) n (log w).
Definition push_log (c : Commit) (w : World) : World :=
  mkWorld (mounted w) (props w) (internalValue w) (debounceTimerRef w)
          (deps1 w) (deps2 w) (widget w) (timers w) (next_id w) (log w ++ [c]).

(** ** Expressions of the component *)

(** [value || ''] : an absent or empty string yields the empty string. *)
Definition orEmpty (v : option string) : string :=
  match v with
  | Some s => if (s =? "")%string then "" else s
  | None => ""
  end.

(** [debounceMs = 3000] in the parameter list. *)
Definition delayOf (p : Props) : Z :=
  match debounceMs p with
  | Some d => d
  | None => 3000
  end.

(** ** The host's timers *)

Definition clearTimeout (id : positive) (w : World) : World :=
  set_timers (filter (fun t => negb (Pos.eqb (t_id t) id)) (timers w)) w.

(** [setTimeout(cb, delay)] where [cb] closes over [oc] and [iv]; returns the
    fresh handle. *)
Definition setTimeout (oc : option Callback) (iv : string) (delay : Z)
    (w : World) : positive * World :=
  let id := next_id w in
  (id, set_next_id (Pos.succ id)
         (set_timers (timers w ++ [mkTimer id delay 0 oc iv]) w)).

(** The body of the timer callback (lines 57-68). *)
Definition expire (t : Timer) (w : World) : World :=
  let w1 :=
    match t_onChange t with
    | Some cb =>
        push_log (mkCommit (t_id t) cb
                    (mkChangeEvent (t_internalValue t) (t_internalValue t))) w
    | None => w
    end in
  set_ref None w1.

(** The delay the host waits for: the one it was given when that lies
    between 1 and [TIMEOUT_MAX], 1 millisecond otherwise. *)
Definition TIMEOUT_MAX : Z := 2147483647.

Definition host_delay (d : Z) : Z :=
  if (1 <=? d) && (d <=? TIMEOUT_MAX) then d else 1.

(** A timer is due once the time elapsed reaches the delay the host waits
    for. *)
Definition due (dt : N) (t : Timer) : bool :=
  host_delay (t_delay t) <=? t_elapsed t + Z.of_N dt.

Definition remaining (t : Timer) : Z := host_delay (t_delay t) - t_elapsed t.

(** Due timers fire in the order of their deadlines, earlier handle first on
    a tie. *)
Fixpoint insert_by_deadline (t : Timer) (ts : list Timer) : list Timer :=
  match ts with
  | [] => [t]
  | u :: us =>
      if remaining t <? remaining u then t :: u :: us
      else u :: insert_by_deadline t us
  end.

Definition firing_order (ts : list Timer) : list Timer :=
  fold_left (fun acc t => insert_by_deadline t acc) ts [].

Definition age (dt : N) (t : Timer) : Timer :=
  mkTimer (t_id t) (t_delay t) (t_elapsed t + Z.of_N dt)
          (t_onChange t) (t_internalValue t).

(** Let [dt] milliseconds pass: the due timers leave the table and run, the
    others grow older. *)
Definition elapse (dt : N) (w : World) : World :=
  let fired := firing_order (filter (due dt) (timers w)) in
  let kept := map (age dt) (filter (fun t => negb (due dt t)) (timers w)) in
  fold_left (fun acc t => expire t acc) fired (set_timers kept w).

(** ** The two effects *)

(** Body of the debounce effect (lines 49-69), run with the [internalValue]
    and props of the render that declared it. *)
Definition schedule (iv : string) (p : Props) (w : World) : World :=
  if negb (iv =? orEmpty (value p))%string then
    let w1 :=
      match debounceTimerRef w with
      | Some id => clearTimeout id w
      | None => w
      end in
    let '(id, w2) := setTimeout (onChange p) iv (delayOf p) w1 in
    set_ref (Some id) w2
  else w.

(** Clean-up of the debounce effect (lines 72-77). *)
Definition cleanup (w : World) : World :=
  match debounceTimerRef w with
  | Some id => set_ref None (clearTimeout id w)
  | None => w
  end.

(** [Object.is] on the dependency arrays. *)
Definition opt_string_eqb (a b : option string) : bool :=
  match a, b with
  | Some x, Some y => (x =? y)%string
  | None, None => true
  | _, _ => false
  end.

Definition opt_callback_eqb (a b : option Callback) : bool :=
  match a, b with
  | Some x, Some y => Nat.eqb x y
  | None, None => true
  | _, _ => false
  end.

Definition deps2_eqb (a b : Deps2) : bool :=
  let '(iv1, v1, c1, d1) := a in
  let '(iv2, v2, c2, d2) := b in
  (iv1 =? iv2)%string && opt_string_eqb v1 v2 && opt_callback_eqb c1 c2
  && (d1 =? d2).

Definition changed1 (old : option (option string)) (new : option string) : bool :=
  match old with
  | None => true
  | Some o => negb (opt_string_eqb o new)
  end.

Definition changed2 (old : option Deps2) (new : Deps2) : bool :=
  match old with
  | None => true
  | Some o => negb (deps2_eqb o new)
  end.

Definition is_some {A : Type} (o : option A) : bool :=
  match o with Some _ => true | None => false end.

(** ** Rendering *)

(** One render followed by its effects.  The render reads [internalValue]
    and the props; the widget receives [value={internalValue}]; then the
    clean-up of the debounce effect runs if its dependencies changed (there is
    none to run at mount), then the sync effect (lines 43-45), then the
    debounce effect, both with the values this render read. *)
Definition render_pass (w : World) : World :=
  let iv := internalValue w in
  let p := props w in
  let d1 := value p in
  let d2 := (iv, value p, onChange p, delayOf p) in
  let c1 := changed1 (deps1 w) d1 in
  let c2 := changed2 (deps2 w) d2 in
  let updating := is_some (deps2 w) in
  let w0 := set_widget iv w in
  let w1 := if c2 && updating then cleanup w0 else w0 in
  let w2 := if c1 then setInternalValue (orEmpty (value p)) w1 else w1 in
  let w3 := if c2 then schedule iv p w2 else w2 in
  set_deps d1 d2 w3.

(** The state cell differs from what was last rendered: a render is due. *)
Definition stale (w : World) : bool := negb (internalValue w =? widget w)%string.

(** Renders are repeated while a state update is outstanding, up to the
    runtime's bound on nested updates. *)
Fixpoint flush (fuel : nat) (w : World) : World :=
  match fuel with
  | O => w
  | S n => if stale w then flush n (render_pass w) else w
  end.

Definition NESTED_UPDATE_LIMIT : nat := 50.

(** ** Entry points *)

Definition initial (p : Props) : World :=
  mkWorld true p (orEmpty (value p)) None None None "" [] 1%positive [].

(** First render: [useState(value || '')], [useRef(null)], both effects. *)
Definition mount (p : Props) : World :=
  flush NESTED_UPDATE_LIMIT (render_pass (initial p)).

(** [handleInputChange] (lines 84-88). *)
Definition handleInputChange (newValue : string) (w : World) : World :=
  flush NESTED_UPDATE_LIMIT (setInternalValue newValue w).

(** Two hosts for the worked examples: one that runs a queued render at
    once, one that lets a millisecond pass first. *)
Definition no_lag : World -> N := fun _ => 0%N.

Definition lag_1ms : World -> N := fun _ => 1%N.

Section Scheduler.

(** The time the host lets pass before it runs a render queued by an
    effect; it may depend on the whole world. *)
Variable lag : World -> N.

(** Renders queued by an effect: before each of them the host lets
    [lag w] milliseconds pass, and the timers that come due run first. *)
Fixpoint flush_queued (fuel : nat) (w : World) : World :=
  match fuel with
  | O => w
  | S n =>
      if stale w then flush_queued n (render_pass (elapse (lag w) w)) else w
  end.

(** The owner renders the component again with props [p].  The sync effect
    of this render may queue a second render. *)
Definition rerender (p : Props) (w : World) : World :=
  flush_queued NESTED_UPDATE_LIMIT (render_pass (set_props p w)).

Definition unmount (w : World) : World :=
  set_mounted false (cleanup w).

Inductive Event :=
| Keystroke (text : string)
| Rerender (p : Props)
| Elapse (dt : N)
| Unmount.

(** An unmounted instance receives no input and no props; time still
    passes. *)
Definition step (w : World) (e : Event) : World :=
  match e with
  | Elapse dt => elapse dt w
  | Keystroke s => if mounted w then handleInputChange s w else w
  | Rerender p => if mounted w then rerender p w else w
  | Unmount => if mounted w then unmount w else w
  end.

Definition run (w : World) (es : list Event) : World :=
  fold_left step es w.

(** ** Vocabulary of the properties *)

(** InternalValue differs from ExternalValue. *)
Definition diverged (w : World) : bool :=
  negb (internalValue w =? orEmpty (value (props w)))%string.

(** What the debounce effect leaves behind when it runs on a world without
    pending timer: the handle, the timer table and the next fresh handle. *)
Definition armed (iv : string) (p : Props) (n : positive)
    : option positive * list Timer * positive :=
  if (iv =? orEmpty (value p))%string then (None, [], n)
  else (Some n, [mkTimer n (delayOf p) 0 (onChange p) iv], Pos.succ n).

(** The event changes one of the dependencies of the debounce effect. *)
Definition deps_change (w : World) (e : Event) : bool :=
  match e with
  | Keystroke s => negb (s =? internalValue w)%string
  | Rerender p =>
      negb (deps2_eqb
              (internalValue w, value (props w), onChange (props w),
               delayOf (props w))
              (internalValue w, value p, onChange p, delayOf p))
  | Elapse _ => false
  | Unmount => false
  end.

(** The call the timer armed by a render with the stale text [iv] makes
    when the host lets [dt] milliseconds pass before the queued render. *)
Definition stale_call (iv : string) (p : Props) (n : positive) (dt : N)
    : list Commit :=
  if (iv =? orEmpty (value p))%string then []
  else if host_delay (delayOf p) <=? Z.of_N dt then
    match onChange p with
    | Some cb => [mkCommit n cb (mkChangeEvent iv iv)]
    | None => []
    end
  else [].

(** The calls an event other than the passage of time makes: only a render
    with another [value] can make one. *)
Definition render_calls (w : World) (e : Event) : list Commit :=
  match e with
  | Rerender q =>
      if mounted w && negb (opt_string_eqb (value (props w)) (value q))
      then stale_call (internalValue w) q (next_id w)
             (lag (render_pass (set_props q w)))
      else []
  | _ => []
  end.

(** A burst of keystrokes: each text of [ks] is followed by the pause before
    the next keystroke; [last] is the final keystroke. *)
Fixpoint burst (ks : list (string * N)) (last : string) : list Event :=
  match ks with
  | [] => [Keystroke last]
  | (s, gap) :: ks' => Keystroke s :: Elapse gap :: burst ks' last
  end.

(** Every keystroke of the burst changes the text of the field. *)
Fixpoint each_changes (prev : string) (ks : list (string * N))
    (last : string) : Prop :=
  match ks with
  | [] => prev <> last
  | (s, _) :: ks' => prev <> s /\ each_changes s ks' last
  end.

(** ** Invariant of the worlds between two events *)

(** The memoised dependencies and the widget agree with the cells. *)
Definition settled (w : World) : Prop :=
  deps1 w = Some (value (props w)) /\
  deps2 w = Some (internalValue w, value (props w), onChange (props w),
                  delayOf (props w)) /\
  widget w = internalValue w.

(** The handle in the ref and the timer table describe the same, single,
    timer, which was created from the current cells and props. *)
Definition pending_ok (w : World) : Prop :=
  match debounceTimerRef w with
  | None => timers w = []
  | Some id =>
      mounted w = true /\
      internalValue w <> orEmpty (value (props w)) /\
      exists e, timers w = [mkTimer id (delayOf (props w)) e
                              (onChange (props w)) (internalValue w)]
  end.

(** Handles are handed out in increasing order and a timer that ran is no
    longer in the table. *)
Definition ids_ok (w : World) : Prop :=
  (forall t, In t (timers w) -> (t_id t < next_id w)%positive) /\
  (forall c, In c (log w) -> (c_timer c < next_id w)%positive) /\
  (forall c t, In c (log w) -> In t (timers w) -> c_timer c <> t_id t).

Definition wf (w : World) : Prop :=
  settled w /\ pending_ok w /\ ids_ok w.

(** Shape of the table alone, as it also holds between two renders. *)
Definition one_timer (w : World) : Prop :=
  match debounceTimerRef w with
  | None => timers w = []
  | Some id => exists t, timers w = [t] /\ t_id t = id
  end.

(** The handle [id] was handed out, is not pending and never ran. *)
Definition dead (id : positive) (w : World) : Prop :=
  (id < next_id w)%positive /\
  (forall t, In t (timers w) -> t_id t <> id) /\
  (forall c, In c (log w) -> c_timer c <> id).

(** ** Two owners used in the worked examples *)

(** Owner value [""], a callback, default delay. *)
Definition owner_empty : Props := mkProps (Some "") (Some 7%nat) None.

(** Owner value ["x"], a callback, [debounceMs = 500]. *)
Definition owner_x : Props := mkProps (Some "x") (Some 7%nat) (Some 500).

(** ** Vocabulary of the properties of whole histories *)

(** The event supplies no commit callback. *)
Definition no_callback (e : Event) : Prop :=
  match e with
  | Rerender q => onChange q = None
  | _ => True
  end.

(** Keystrokes and renders by the owner, as opposed to time and unmount. *)
Definition is_mutation (e : Event) : bool :=
  match e with
  | Keystroke _ | Rerender _ => true
  | Elapse _ | Unmount => false
  end.

Definition count_mutations (es : list Event) : nat :=
  List.length (filter is_mutation es).

Definition is_elapse (e : Event) : bool :=
  match e with
  | Elapse _ => true
  | _ => false
  end.

(** The history with every passage of time removed. *)
Definition without_time (es : list Event) : list Event :=
  filter (fun e => negb (is_elapse e)) es.


(** The texts the owner supplied in its renders, as [value || '']. *)
Fixpoint owner_texts (es : list Event) : list string :=
  match es with
  | [] => []
  | Rerender q :: es' => orEmpty (value q) :: owner_texts es'
  | _ :: es' => owner_texts es'
  end.

(** A text that was typed in the history, or supplied by the owner at the
    mount with props [p] or in a later render. *)
Definition known_text (p : Props) (es : list Event) (s : string) : Prop :=
  In (Keystroke s) es \/ s = orEmpty (value p) \/ In s (owner_texts es).

(** How [mounted], the props and [internalValue] evolve, timers left out:
    a keystroke stores its text, a render by the owner stores the props and,
    when [value] changed, [value || '']. *)
Definition next_cells (m : bool) (p : Props) (iv : string) (e : Event)
    : bool * Props * string :=
  match e with
  | Keystroke s => if m then (m, p, s) else (m, p, iv)
  | Rerender q =>
      if m
      then (m, q, if opt_string_eqb (value p) (value q) then iv
                  else orEmpty (value q))
      else (m, p, iv)
  | Elapse _ => (m, p, iv)
  | Unmount => (false, p, iv)
  end.

(** ** Decidable comparisons *)

Lemma opt_string_eqb_spec (a b : option string) :
  reflect (a = b) (opt_string_eqb a b).
Proof.
  destruct a as [x|], b as [y|]; simpl; try (constructor; congruence).
  destruct (String.eqb_spec x y); constructor; congruence.
Qed.

Lemma opt_callback_eqb_spec (a b : option Callback) :
  reflect (a = b) (opt_callback_eqb a b).
Proof.
  destruct a as [x|], b as [y|]; simpl; try (constructor; congruence).
  destruct (Nat.eqb_spec x y); constructor; congruence.
Qed.

Lemma deps2_eqb_spec (a b : Deps2) : reflect (a = b) (deps2_eqb a b).
Proof.
  destruct a as [[[i1 v1] c1] d1], b as [[[i2 v2] c2] d2]; simpl.
  destruct (String.eqb_spec i1 i2); simpl; [|constructor; congruence].
  destruct (opt_string_eqb_spec v1 v2); simpl; [|constructor; congruence].
  destruct (opt_callback_eqb_spec c1 c2); simpl; [|constructor; congruence].
  destruct (Z.eqb_spec d1 d2); constructor; congruence.
Qed.

Lemma deps2_eqb_refl (a : Deps2) : deps2_eqb a a = true.
Proof. destruct (deps2_eqb_spec a a); congruence. Qed.

Lemma opt_string_eqb_refl (a : option string) : opt_string_eqb a a = true.
Proof. destruct (opt_string_eqb_spec a a); congruence. Qed.

(** ** One render, in closed form *)

Lemma world_eta (w : World) :
  w = mkWorld (mounted w) (props w) (internalValue w) (debounceTimerRef w)
        (deps1 w) (deps2 w) (widget w) (timers w) (next_id w) (log w).
Proof. destruct w; reflexivity. Qed.

Lemma flush_fresh (n : nat) (w : World) : stale w = false -> flush n w = w.
Proof. intros H; destruct n; simpl; [|rewrite H]; reflexivity. Qed.

Lemma flush_stale (n : nat) (w : World) :
  stale w = true -> flush (S n) w = flush n (render_pass w).
Proof. simpl; intros ->; reflexivity. Qed.

Lemma flush_queued_fresh (n : nat) (w : World) :
  stale w = false -> flush_queued n w = w.
Proof. intros H; destruct n; simpl; [|rewrite H]; reflexivity. Qed.

Lemma flush_queued_stale (n : nat) (w : World) :
  stale w = true ->
  flush_queued (S n) w = flush_queued n (render_pass (elapse (lag w) w)).
Proof. simpl; intros ->; reflexivity. Qed.

Lemma render_pass_eq (w : World) (v0 : option string) (d0 : Deps2) :
  one_timer w -> deps1 w = Some v0 -> deps2 w = Some d0 ->
  render_pass w =
    let iv := internalValue w in
    let p := props w in
    let d2 := (iv, value p, onChange p, delayOf p) in
    let iv' := if opt_string_eqb v0 (value p) then iv else orEmpty (value p) in
    if deps2_eqb d0 d2 then
      mkWorld (mounted w) p iv' (debounceTimerRef w) (Some (value p)) (Some d2)
              iv (timers w) (next_id w) (log w)
    else
      let '(r, ts, n) := armed iv p (next_id w) in
      mkWorld (mounted w) p iv' r (Some (value p)) (Some d2) iv ts n (log w).
Proof.
  destruct w as [m p iv r d1 d2 wd ts n lg]; unfold one_timer; simpl.
  intros Hone -> ->. unfold render_pass, changed1, changed2; simpl.
  destruct (deps2_eqb d0 (iv, value p, onChange p, delayOf p)); simpl.
  - destruct (opt_string_eqb v0 (value p)); reflexivity.
  - assert (Hc : cleanup (set_widget iv (mkWorld m p iv r (Some v0) (Some d0) wd ts n lg))
                 = mkWorld m p iv None (Some v0) (Some d0) iv [] n lg).
    { unfold cleanup, set_widget, clearTimeout, set_ref, set_timers; simpl.
      destruct r as [id|].
      - destruct Hone as [t [-> <-]]; simpl. rewrite Pos.eqb_refl; reflexivity.
      - subst ts; reflexivity. }
    rewrite Hc. unfold armed, schedule.
    destruct (opt_string_eqb v0 (value p)); simpl;
      destruct (iv =? orEmpty (value p))%string; reflexivity.
Qed.

Lemma elapse_idle (w : World) (dt : N) : timers w = [] -> elapse dt w = w.
Proof.
  intros H. unfold elapse. rewrite H; simpl.
  destruct w; simpl in *; subst; reflexivity.
Qed.

Lemma elapse_single (w : World) (dt : N) (t : Timer) :
  timers w = [t] ->
  elapse dt w =
    if due dt t then expire t (set_timers [] w)
    else set_timers [age dt t] w.
Proof.
  intros H. unfold elapse. rewrite H; simpl.
  destruct (due dt t); reflexivity.
Qed.

Lemma idle_time (dts : list N) (w : World) :
  timers w = [] -> run w (map Elapse dts) = w.
Proof.
  intros Ht. induction dts as [|dt dts IH]; [reflexivity|].
  cbn [map run fold_left step]. rewrite elapse_idle by assumption. exact IH.
Qed.

Lemma wf_one_timer (w : World) : wf w -> one_timer w.
Proof.
  intros (_ & Hp & _). unfold pending_ok, one_timer in *.
  destruct (debounceTimerRef w); [|assumption].
  destruct Hp as (_ & _ & e & ->). eexists; split; reflexivity.
Qed.

Lemma armed_synced (s : string) (p : Props) (n : positive) :
  s = orEmpty (value p) -> armed s p n = (None, [], n).
Proof. intros ->. unfold armed. rewrite String.eqb_refl. reflexivity. Qed.

Lemma armed_diverged (s : string) (p : Props) (n : positive) :
  s <> orEmpty (value p) ->
  armed s p n =
    (Some n, [mkTimer n (delayOf p) 0 (onChange p) s], Pos.succ n).
Proof.
  intros H. unfold armed.
  destruct (String.eqb_spec s (orEmpty (value p))); [contradiction|reflexivity].
Qed.

(** ** The entry points, in closed form on well-formed worlds *)

(** Two renders always suffice; the remaining fuel is kept abstract. *)
Lemma limit_eq : exists k, NESTED_UPDATE_LIMIT = S (S k).
Proof. exists 48%nat; reflexivity. Qed.

Ltac fields :=
  cbn [mounted props internalValue debounceTimerRef deps1 deps2 widget timers
       next_id log setInternalValue set_props set_mounted set_ref set_deps
       set_widget set_timers set_next_id push_log].

Ltac with_fuel k :=
  let E := fresh "E" in
  destruct limit_eq as [k E]; rewrite E; clear E.

Lemma mount_eq (p : Props) :
  mount p =
    mkWorld true p (orEmpty (value p)) None (Some (value p))
      (Some (orEmpty (value p), value p, onChange p, delayOf p))
      (orEmpty (value p)) [] 1%positive [].
Proof.
  unfold mount. with_fuel k.
  assert (H : render_pass (initial p) =
    mkWorld true p (orEmpty (value p)) None (Some (value p))
      (Some (orEmpty (value p), value p, onChange p, delayOf p))
      (orEmpty (value p)) [] 1%positive []).
  { unfold render_pass, initial, schedule; simpl.
    rewrite String.eqb_refl; reflexivity. }
  rewrite H. apply flush_fresh. unfold stale; simpl.
  rewrite String.eqb_refl; reflexivity.
Qed.

Lemma handleInputChange_same (w : World) :
  wf w -> handleInputChange (internalValue w) w = w.
Proof.
  intros ((_ & _ & Hw) & _). unfold handleInputChange.
  assert (E : setInternalValue (internalValue w) w = w)
    by (destruct w; reflexivity).
  rewrite E. apply flush_fresh. unfold stale.
  rewrite Hw, String.eqb_refl. reflexivity.
Qed.

Lemma handleInputChange_changed (w : World) (s : string) :
  wf w -> s <> internalValue w ->
  handleInputChange s w =
    let p := props w in
    let '(r, ts, n) := armed s p (next_id w) in
    mkWorld (mounted w) p s r (Some (value p))
      (Some (s, value p, onChange p, delayOf p)) s ts n (log w).
Proof.
  intros Hwf Hs. pose proof (wf_one_timer w Hwf) as Hone.
  destruct Hwf as ((H1 & H2 & Hw) & _).
  unfold handleInputChange. with_fuel k.
  rewrite flush_stale.
  2:{ unfold stale; fields. rewrite Hw.
      destruct (String.eqb_spec s (internalValue w)); [contradiction|reflexivity]. }
  rewrite (render_pass_eq _ (value (props w))
             (internalValue w, value (props w), onChange (props w),
              delayOf (props w))); try assumption.
  fields. rewrite opt_string_eqb_refl.
  destruct (deps2_eqb_spec
              (internalValue w, value (props w), onChange (props w),
               delayOf (props w))
              (s, value (props w), onChange (props w), delayOf (props w)))
    as [E|_]; [inversion E; congruence|].
  destruct (armed s (props w) (next_id w)) as [[r ts] n].
  apply flush_fresh. unfold stale; fields.
  rewrite String.eqb_refl; reflexivity.
Qed.

(** The owner renders again without changing any dependency. *)
Lemma rerender_same (w : World) (p : Props) :
  wf w ->
  value p = value (props w) -> onChange p = onChange (props w) ->
  delayOf p = delayOf (props w) ->
  rerender p w = set_props p w.
Proof.
  intros Hwf Hv Hc Hd. pose proof (wf_one_timer w Hwf) as Hone.
  destruct Hwf as ((H1 & H2 & Hw) & _).
  unfold rerender. with_fuel k.
  rewrite (render_pass_eq _ (value (props w))
             (internalValue w, value (props w), onChange (props w),
              delayOf (props w))); try assumption.
  fields. rewrite Hv, Hc, Hd, deps2_eqb_refl, opt_string_eqb_refl.
  rewrite flush_queued_fresh by (unfold stale; fields; rewrite String.eqb_refl; reflexivity).
  rewrite (world_eta w) at 6. unfold set_props.
  rewrite H1, H2, Hw. reflexivity.
Qed.

(** The owner renders again with the same [value] and another [onChange] or
    [debounceMs]. *)
Lemma rerender_value_kept (w : World) (p : Props) :
  wf w ->
  value p = value (props w) ->
  (onChange p <> onChange (props w) \/ delayOf p <> delayOf (props w)) ->
  rerender p w =
    let iv := internalValue w in
    let '(r, ts, n) := armed iv p (next_id w) in
    mkWorld (mounted w) p iv r (Some (value p))
      (Some (iv, value p, onChange p, delayOf p)) iv ts n (log w).
Proof.
  intros Hwf Hv Hc. pose proof (wf_one_timer w Hwf) as Hone.
  destruct Hwf as ((H1 & H2 & Hw) & _).
  unfold rerender. with_fuel k.
  rewrite (render_pass_eq _ (value (props w))
             (internalValue w, value (props w), onChange (props w),
              delayOf (props w))); try assumption.
  fields. rewrite Hv, opt_string_eqb_refl.
  destruct (deps2_eqb_spec
              (internalValue w, value (props w), onChange (props w),
               delayOf (props w))
              (internalValue w, value (props w), onChange p, delayOf p))
    as [E|_]; [inversion E; destruct Hc; congruence|].
  destruct (armed (internalValue w) p (next_id w)) as [[r ts] n].
  apply flush_queued_fresh. unfold stale; fields.
  rewrite String.eqb_refl; reflexivity.
Qed.

Lemma stale_call_cases (iv : string) (p : Props) (n : positive) (dt : N) :
  stale_call iv p n dt = [] \/
  exists cb,
    iv <> orEmpty (value p) /\
    host_delay (delayOf p) <= Z.of_N dt /\
    onChange p = Some cb /\
    stale_call iv p n dt = [mkCommit n cb (mkChangeEvent iv iv)].
Proof.
  unfold stale_call.
  destruct (String.eqb_spec iv (orEmpty (value p))) as [E|N]; [auto|].
  destruct (Z.leb_spec (host_delay (delayOf p)) (Z.of_N dt)); [|auto].
  destruct (onChange p) as [cb|]; [|auto].
  right. exists cb. auto.
Qed.

Lemma expire_eq (t : Timer) (w : World) :
  expire t w =
    mkWorld (mounted w) (props w) (internalValue w) None (deps1 w) (deps2 w)
      (widget w) (timers w) (next_id w)
      (log w ++ match t_onChange t with
                | Some cb =>
                    [mkCommit (t_id t) cb
                       (mkChangeEvent (t_internalValue t) (t_internalValue t))]
                | None => []
                end).
Proof.
  unfold expire. destruct (t_onChange t); fields; [reflexivity|].
  rewrite app_nil_r. reflexivity.
Qed.

(** The render queued by the sync effect: the cells now agree, whatever
    timer the first render armed is cleared and none is armed. *)
Lemma second_pass (m : bool) (p : Props) (iv : string)
    (r : option positive) (ts : list Timer) (n : positive)
    (lg : list Commit) :
  iv <> orEmpty (value p) ->
  one_timer (mkWorld m p (orEmpty (value p)) r (Some (value p))
               (Some (iv, value p, onChange p, delayOf p)) iv ts n lg) ->
  render_pass (mkWorld m p (orEmpty (value p)) r (Some (value p))
                 (Some (iv, value p, onChange p, delayOf p)) iv ts n lg) =
  mkWorld m p (orEmpty (value p)) None (Some (value p))
    (Some (orEmpty (value p), value p, onChange p, delayOf p))
    (orEmpty (value p)) [] n lg.
Proof.
  intros Hne Hone.
  rewrite (render_pass_eq _ (value p)
             (iv, value p, onChange p, delayOf p)) by (assumption || reflexivity).
  fields. rewrite opt_string_eqb_refl.
  destruct (deps2_eqb_spec (iv, value p, onChange p, delayOf p)
              (orEmpty (value p), value p, onChange p, delayOf p))
    as [E|_]; [inversion E; congruence|].
  rewrite armed_synced by reflexivity. reflexivity.
Qed.

(** The owner renders again with another [value].  The first render arms a
    timer with the text it read when that text differs from the new
    [value || '']; the sync effect queues a second render; the host lets
    [lag] pass, in which that timer may run; the second render clears it. *)
Lemma rerender_value_changed (w : World) (p : Props) :
  wf w ->
  value p <> value (props w) ->
  rerender p w =
    let s := orEmpty (value p) in
    mkWorld (mounted w) p s None (Some (value p))
      (Some (s, value p, onChange p, delayOf p)) s []
      (if (internalValue w =? s)%string then next_id w
       else Pos.succ (next_id w))
      (log w ++ stale_call (internalValue w) p (next_id w)
                  (lag (render_pass (set_props p w)))).
Proof.
  intros Hwf Hv. pose proof (wf_one_timer w Hwf) as Hone.
  destruct Hwf as ((H1 & H2 & Hw) & _).
  unfold rerender. with_fuel k.
  remember (lag (render_pass (set_props p w))) as dt eqn:Hdt.
  assert (E1 : render_pass (set_props p w) =
    let '(r, ts, n) := armed (internalValue w) p (next_id w) in
    mkWorld (mounted w) p (orEmpty (value p)) r (Some (value p))
      (Some (internalValue w, value p, onChange p, delayOf p))
      (internalValue w) ts n (log w)).
  { rewrite (render_pass_eq _ (value (props w))
               (internalValue w, value (props w), onChange (props w),
                delayOf (props w))); try assumption.
    fields.
    destruct (opt_string_eqb_spec (value (props w)) (value p)) as [E|_];
      [congruence|].
    destruct (deps2_eqb_spec
                (internalValue w, value (props w), onChange (props w),
                 delayOf (props w))
                (internalValue w, value p, onChange p, delayOf p))
      as [E|_]; [inversion E; congruence|].
    reflexivity. }
  unfold stale_call, armed in *.
  destruct (String.eqb_spec (internalValue w) (orEmpty (value p))) as [E|N].
  - rewrite E1, app_nil_r.
    rewrite flush_queued_fresh
      by (unfold stale; fields; rewrite E, String.eqb_refl; reflexivity).
    rewrite E. reflexivity.
  - rewrite flush_queued_stale.
    2:{ rewrite E1. unfold stale; fields.
        destruct (String.eqb_spec (orEmpty (value p)) (internalValue w));
          [congruence|reflexivity]. }
    rewrite <- Hdt. rewrite E1.
    rewrite (elapse_single _ dt
               (mkTimer (next_id w) (delayOf p) 0 (onChange p)
                  (internalValue w))) by reflexivity.
    unfold due; cbn [t_delay t_elapsed]. rewrite Z.add_0_l.
    destruct (host_delay (delayOf p) <=? Z.of_N dt).
    + rewrite expire_eq. fields. cbn [t_onChange t_id t_internalValue].
      rewrite second_pass by (auto; reflexivity).
      apply flush_queued_fresh. unfold stale; fields.
      rewrite String.eqb_refl; reflexivity.
    + unfold set_timers; fields.
      rewrite second_pass
        by (auto; unfold one_timer; fields; eexists; split; reflexivity).
      rewrite app_nil_r.
      apply flush_queued_fresh. unfold stale; fields.
      rewrite String.eqb_refl; reflexivity.
Qed.

Lemma unmount_eq (w : World) :
  wf w ->
  unmount w =
    mkWorld false (props w) (internalValue w) None (deps1 w) (deps2 w)
      (widget w) [] (next_id w) (log w).
Proof.
  intros Hwf. pose proof (wf_one_timer w Hwf) as Hone.
  unfold unmount, cleanup, one_timer in *.
  destruct w as [m p iv r d1 d2 wd ts n lg]; simpl in *.
  destruct r as [id|].
  - destruct Hone as (t & -> & <-).
    unfold set_mounted, set_ref, clearTimeout, set_timers; simpl.
    rewrite Pos.eqb_refl; reflexivity.
  - subst ts; reflexivity.
Qed.

(** ** The invariant holds in every reachable world *)

Lemma wf_mount (p : Props) : wf (mount p).
Proof.
  rewrite mount_eq. unfold wf, settled, pending_ok, ids_ok; simpl.
  repeat split; intros; contradiction.
Qed.

Lemma wf_armed (m : bool) (p : Props) (s : string) (wd : list Commit)
    (n0 : positive) :
  (m = true \/ s = orEmpty (value p)) ->
  (forall c, In c wd -> (c_timer c < n0)%positive) ->
  forall r ts n, armed s p n0 = (r, ts, n) ->
  wf (mkWorld m p s r (Some (value p))
        (Some (s, value p, onChange p, delayOf p)) s ts n wd).
Proof.
  intros Hm Hlog r ts n. unfold armed.
  destruct (String.eqb_spec s (orEmpty (value p))) as [E|N];
    intros H; inversion H; subst r ts n; clear H;
    unfold wf, settled, pending_ok, ids_ok; simpl.
  - repeat split; try (intros; contradiction). assumption.
  - destruct Hm as [Hm|Hm]; [|contradiction].
    repeat split; try assumption.
    + eexists; reflexivity.
    + intros t [<-|[]]; simpl. lia.
    + intros c Hc. specialize (Hlog c Hc). lia.
    + intros c t Hc [<-|[]]; simpl. specialize (Hlog c Hc). lia.
Qed.

Lemma wf_handleInputChange (w : World) (s : string) :
  wf w -> mounted w = true -> wf (handleInputChange s w).
Proof.
  intros Hwf Hm.
  destruct (String.eqb_spec s (internalValue w)) as [->|N].
  - rewrite handleInputChange_same; assumption.
  - rewrite handleInputChange_changed by assumption. cbv zeta.
    destruct (armed s (props w) (next_id w)) as [[r ts] n] eqn:Ha.
    apply (wf_armed _ _ _ _ (next_id w)); auto.
    apply Hwf.
Qed.

Lemma wf_rerender (w : World) (p : Props) :
  wf w -> mounted w = true -> wf (rerender p w).
Proof.
  intros Hwf Hm.
  destruct (opt_string_eqb_spec (value p) (value (props w))) as [Ev|Nv].
  - destruct (opt_callback_eqb_spec (onChange p) (onChange (props w)))
      as [Ec|Nc].
    + destruct (Z.eq_dec (delayOf p) (delayOf (props w))) as [Ed|Nd].
      * rewrite rerender_same by assumption.
        destruct Hwf as ((H1 & H2 & H3) & Hp & Hi).
        unfold wf, settled, pending_ok, ids_ok in *.
        destruct w; simpl in *. rewrite Ev, Ec, Ed. auto.
      * rewrite rerender_value_kept by auto. cbv zeta.
        destruct (armed (internalValue w) p (next_id w)) as [[r ts] n] eqn:Ha.
        apply (wf_armed _ _ _ _ (next_id w)); auto. apply Hwf.
    + rewrite rerender_value_kept by auto. cbv zeta.
      destruct (armed (internalValue w) p (next_id w)) as [[r ts] n] eqn:Ha.
      apply (wf_armed _ _ _ _ (next_id w)); auto. apply Hwf.
  - rewrite rerender_value_changed by assumption. cbv zeta.
    destruct Hwf as (_ & _ & (_ & Hl & _)).
    unfold wf, settled, pending_ok, ids_ok; fields.
    repeat split; try (intros; contradiction).
    intros c Hc. apply in_app_or in Hc. destruct Hc as [Hc|Hc].
    + specialize (Hl c Hc).
      destruct (internalValue w =? orEmpty (value p))%string; lia.
    + destruct (stale_call_cases (internalValue w) p (next_id w)
                  (lag (render_pass (set_props p w))))
        as [E|(cb & N & _ & _ & E)]; rewrite E in Hc; [destruct Hc|].
      destruct Hc as [<-|[]]. cbn [c_timer].
      destruct (String.eqb_spec (internalValue w) (orEmpty (value p)));
        [contradiction|lia].
Qed.

Lemma wf_unmount (w : World) : wf w -> wf (unmount w).
Proof.
  intros Hwf. rewrite unmount_eq by assumption.
  destruct Hwf as ((H1 & H2 & H3) & Hp & (_ & Hl & _)).
  unfold wf, settled, pending_ok, ids_ok; simpl.
  repeat split; try assumption; intros; contradiction.
Qed.

Lemma wf_elapse (w : World) (dt : N) : wf w -> wf (elapse dt w).
Proof.
  intros Hwf. pose proof Hwf as ((H1 & H2 & H3) & Hp & (Ht & Hl & Hn)).
  unfold pending_ok in Hp.
  destruct (debounceTimerRef w) as [id|] eqn:Hr.
  - destruct Hp as (Hm & Hd & e & Hts).
    rewrite (elapse_single w dt _ Hts).
    destruct (due dt _).
    + unfold expire; cbn [t_onChange t_id t_internalValue].
      assert (Hid : (id < next_id w)%positive).
      { apply (Ht (mkTimer id (delayOf (props w)) e (onChange (props w))
                     (internalValue w))). rewrite Hts; left; reflexivity. }
      destruct (onChange (props w)) as [cb|] eqn:Hoc;
        unfold wf, settled, pending_ok, ids_ok; fields; rewrite ?Hoc;
        repeat split; try assumption; try (intros; contradiction).
      intros c Hc. apply in_app_or in Hc. destruct Hc as [Hc|[<-|[]]]; auto.
    + unfold wf, settled, pending_ok, ids_ok; fields. rewrite Hr.
      repeat split; try assumption.
      * eexists; reflexivity.
      * intros t [<-|[]]; simpl. apply (Ht _ ltac:(rewrite Hts; left; reflexivity)).
      * intros c t Hc [<-|[]]; simpl.
        apply (Hn c _ Hc ltac:(rewrite Hts; left; reflexivity)).
  - rewrite elapse_idle; assumption.
Qed.

Lemma wf_step (w : World) (e : Event) : wf w -> wf (step w e).
Proof.
  intros Hwf. destruct e as [s|p|dt|]; simpl.
  - destruct (mounted w) eqn:Hm; [apply wf_handleInputChange|]; assumption.
  - destruct (mounted w) eqn:Hm; [apply wf_rerender|]; assumption.
  - apply wf_elapse; assumption.
  - destruct (mounted w) eqn:Hm; [apply wf_unmount|]; assumption.
Qed.

Lemma wf_run (es : list Event) (w : World) : wf w -> wf (run w es).
Proof.
  revert w. induction es as [|e es IH]; intros w Hwf; simpl; [assumption|].
  apply IH, wf_step, Hwf.
Qed.

Lemma wf_reachable (p : Props) (es : list Event) : wf (run (mount p) es).
Proof. apply wf_run, wf_mount. Qed.

(** The renders of every entry point settle within the bound: no state
    update is outstanding when control returns to the host. *)
Lemma renders_settle (p : Props) (es : list Event) :
  stale (run (mount p) es) = false.
Proof.
  destruct (wf_reachable p es) as ((_ & _ & Hw) & _).
  unfold stale. rewrite Hw, String.eqb_refl. reflexivity.
Qed.

Lemma run_app (w : World) (es es' : list Event) :
  run w (es ++ es') = run (run w es) es'.
Proof. unfold run. apply fold_left_app. Qed.

(** ** What one event can do to handles, table and log *)

Lemma armed_facts (s : string) (p : Props) (n0 : positive)
    r ts n :
  armed s p n0 = (r, ts, n) ->
  (n0 <= n)%positive /\ (forall t, In t ts -> t_id t = n0).
Proof.
  unfold armed. destruct (s =? orEmpty (value p))%string;
    intros H; inversion H; subst; split; try lia.
  - intros t [].
  - intros t [<-|[]]; reflexivity.
Qed.

Lemma elapse_cases (w : World) (dt : N) :
  wf w ->
  (debounceTimerRef w = None /\ elapse dt w = w) \/
  (exists id e,
     let t := mkTimer id (delayOf (props w)) e (onChange (props w))
                (internalValue w) in
     debounceTimerRef w = Some id /\ timers w = [t] /\
     ((due dt t = true /\ elapse dt w = expire t (set_timers [] w)) \/
      (due dt t = false /\ elapse dt w = set_timers [age dt t] w))).
Proof.
  intros (_ & Hp & _). unfold pending_ok in Hp.
  destruct (debounceTimerRef w) as [id|].
  - right. destruct Hp as (_ & _ & e & Hts). exists id, e. cbv zeta.
    split; [reflexivity|]. split; [assumption|].
    rewrite (elapse_single w dt _ Hts).
    destruct (due dt _); [left|right]; split; reflexivity.
  - left. split; [reflexivity|]. apply elapse_idle; assumption.
Qed.

(** The passage of time leaves the cells as they were. *)
Lemma fold_expire_cells (ts : list Timer) (w : World) :
  let w' := fold_left (fun acc t => expire t acc) ts w in
  mounted w' = mounted w /\ props w' = props w /\
  internalValue w' = internalValue w /\ widget w' = widget w.
Proof.
  revert w. induction ts as [|t ts IH]; intros w; simpl; [auto|].
  destruct (IH (expire t w)) as (H1 & H2 & H3 & H4).
  rewrite H1, H2, H3, H4. unfold expire.
  destruct (t_onChange t); auto.
Qed.

Lemma elapse_cells (dt : N) (w : World) :
  mounted (elapse dt w) = mounted w /\ props (elapse dt w) = props w /\
  internalValue (elapse dt w) = internalValue w.
Proof.
  unfold elapse.
  destruct (fold_expire_cells
              (firing_order (filter (due dt) (timers w)))
              (set_timers
                 (map (age dt)
                    (filter (fun t => negb (due dt t)) (timers w))) w))
    as (H1 & H2 & H3 & _).
  auto.
Qed.

Lemma step_frame (w : World) (e : Event) :
  wf w ->
  (next_id w <= next_id (step w e))%positive /\
  (forall t, In t (timers (step w e)) ->
     debounceTimerRef w = Some (t_id t) \/ t_id t = next_id w) /\
  (log (step w e) = log w \/
   (exists dt id cb,
      e = Elapse dt /\
      debounceTimerRef w = Some id /\ onChange (props w) = Some cb /\
      log (step w e) =
        (log w ++ [mkCommit id cb (mkChangeEvent (internalValue w)
                                                  (internalValue w))])%list) \/
   (exists q cb,
      e = Rerender q /\ mounted w = true /\
      value q <> value (props w) /\
      internalValue w <> orEmpty (value q) /\
      host_delay (delayOf q) <= Z.of_N (lag (render_pass (set_props q w))) /\
      onChange q = Some cb /\
      next_id (step w e) = Pos.succ (next_id w) /\
      log (step w e) =
        (log w ++ [mkCommit (next_id w) cb
                     (mkChangeEvent (internalValue w)
                                    (internalValue w))])%list)).
Proof.
  intros Hwf.
  assert (Hold : forall t, In t (timers w) ->
                 debounceTimerRef w = Some (t_id t) \/ t_id t = next_id w).
  { destruct Hwf as (_ & Hp & _). unfold pending_ok in Hp.
    destruct (debounceTimerRef w).
    - destruct Hp as (_ & _ & e0 & ->). intros t [<-|[]]. left; reflexivity.
    - rewrite Hp. intros t []. }
  assert (Hid : (next_id w <= next_id w)%positive) by lia.
  destruct e as [s|p|dt|]; simpl.
  - destruct (mounted w) eqn:Hm; [|auto].
    destruct (String.eqb_spec s (internalValue w)) as [->|N].
    + rewrite handleInputChange_same by assumption. auto.
    + rewrite handleInputChange_changed by assumption. cbv zeta.
      destruct (armed s (props w) (next_id w)) as [[r ts] n] eqn:Ha.
      destruct (armed_facts _ _ _ _ _ _ Ha) as [Hle Hts]. fields. auto.
  - destruct (mounted w) eqn:Hm; [|auto].
    destruct (opt_string_eqb_spec (value p) (value (props w))) as [Ev|Nv].
    + destruct (opt_callback_eqb_spec (onChange p) (onChange (props w)))
        as [Ec|Nc];
        [destruct (Z.eq_dec (delayOf p) (delayOf (props w))) as [Ed|Nd]|].
      * rewrite rerender_same by assumption. fields. auto.
      * rewrite rerender_value_kept by auto. cbv zeta.
        destruct (armed (internalValue w) p (next_id w)) as [[r ts] n] eqn:Ha.
        destruct (armed_facts _ _ _ _ _ _ Ha) as [Hle Hts]. fields. auto.
      * rewrite rerender_value_kept by auto. cbv zeta.
        destruct (armed (internalValue w) p (next_id w)) as [[r ts] n] eqn:Ha.
        destruct (armed_facts _ _ _ _ _ _ Ha) as [Hle Hts]. fields. auto.
    + rewrite rerender_value_changed by assumption. fields.
      split; [destruct (internalValue w =? orEmpty (value p))%string; lia|].
      split; [intros t []|].
      destruct (stale_call_cases (internalValue w) p (next_id w)
                  (lag (render_pass (set_props p w))))
        as [E|(cb & N & Hd & Hcb & E)]; rewrite E.
      * left. apply app_nil_r.
      * right; right. exists p, cb.
        destruct (String.eqb_spec (internalValue w) (orEmpty (value p)));
          [contradiction|].
        repeat split; assumption.
  - destruct (elapse_cases w dt Hwf)
      as [(_ & ->)|(id & e0 & Hr & Hts & [(_ & ->)|(_ & ->)])]; auto.
    + unfold expire; cbn [t_onChange t_id t_internalValue].
      destruct (onChange (props w)) as [cb|] eqn:Hoc; fields.
      * repeat split; auto; [intros t []|]. right; left.
        exists dt, id, cb. auto.
      * repeat split; auto. intros t [].
    + fields. repeat split; auto. intros t [<-|[]]. left; assumption.
  - destruct (mounted w) eqn:Hm; [|auto].
    rewrite unmount_eq by assumption. fields.
    repeat split; auto. intros t [].
Qed.

(** Whatever an event adds to the log was called by a timer that was
    pending or by one created during the event, on behalf of the callback in
    force when the event ends, with the text in force when it began. *)
Lemma step_calls (w : World) (e : Event) :
  wf w ->
  log (step w e) = log w \/
  exists id cb,
    (debounceTimerRef w = Some id \/ id = next_id w) /\
    onChange (props (step w e)) = Some cb /\
    log (step w e) =
      (log w ++ [mkCommit id cb (mkChangeEvent (internalValue w)
                                                (internalValue w))])%list.
Proof.
  intros Hwf.
  destruct (step_frame w e Hwf)
    as (_ & _ & [E|[(dt & id & cb & -> & Hr & Hcb & E)
                   |(q & cb & -> & Hm & Hv & _ & _ & Hcb & _ & E)]]).
  - left; exact E.
  - right. exists id, cb. split; [left; exact Hr|]. split; [|exact E].
    cbn [step]. destruct (elapse_cells dt w) as (_ & -> & _). exact Hcb.
  - right. exists (next_id w), cb. split; [right; reflexivity|].
    split; [|exact E].
    cbn [step]. rewrite Hm. rewrite rerender_value_changed by assumption.
    exact Hcb.
Qed.

Lemma dead_step (id : positive) (w : World) (e : Event) :
  wf w -> dead id w -> dead id (step w e).
Proof.
  intros Hwf (Hlt & Ht & Hl).
  destruct (step_frame w e Hwf) as (Hn & Hts & _).
  pose proof (step_calls w e Hwf) as Hlog.
  assert (Href : debounceTimerRef w <> Some id).
  { destruct Hwf as (_ & Hp & _). unfold pending_ok in Hp. intros Hr.
    rewrite Hr in Hp. destruct Hp as (_ & _ & e0 & Hts0).
    apply (Ht (mkTimer id (delayOf (props w)) e0 (onChange (props w))
                 (internalValue w))); [rewrite Hts0; left|]; reflexivity. }
  repeat split.
  - lia.
  - intros t Hin E. destruct (Hts t Hin) as [H|H].
    + apply Href. rewrite H, E. reflexivity.
    + lia.
  - intros c Hin.
    destruct Hlog as [E|(id' & cb & Hr & _ & E)]; rewrite E in Hin; [auto|].
    apply in_app_or in Hin. destruct Hin as [Hin|[<-|[]]]; [auto|].
    cbn [c_timer]. destruct Hr as [Hr|Hr]; [congruence|lia].
Qed.

Lemma dead_run (id : positive) (es : list Event) (w : World) :
  wf w -> dead id w -> dead id (run w es).
Proof.
  revert w. induction es as [|e es IH]; intros w Hwf Hd; simpl; [assumption|].
  apply IH; [apply wf_step|apply dead_step]; assumption.
Qed.

(** A pending handle has not run yet and is below the next fresh one. *)
Lemma pending_facts (w : World) (id : positive) :
  wf w -> debounceTimerRef w = Some id ->
  mounted w = true /\ internalValue w <> orEmpty (value (props w)) /\
  (id < next_id w)%positive /\ (forall c, In c (log w) -> c_timer c <> id).
Proof.
  intros (_ & Hp & (Ht & _ & Hn)) Hr. unfold pending_ok in Hp.
  rewrite Hr in Hp. destruct Hp as (Hm & Hd & e & Hts).
  repeat split; try assumption.
  - apply (Ht (mkTimer id (delayOf (props w)) e (onChange (props w))
                 (internalValue w))). rewrite Hts; left; reflexivity.
  - intros c Hc.
    apply (Hn c (mkTimer id (delayOf (props w)) e (onChange (props w))
                   (internalValue w)) Hc). rewrite Hts; left; reflexivity.
Qed.

(** A pending timer closes over the callback and the text in force and has
    the delay in force. *)
Lemma pending_carries_current (w : World) :
  wf w ->
  forall t, In t (timers w) ->
    t_delay t = delayOf (props w) /\ t_onChange t = onChange (props w) /\
    t_internalValue t = internalValue w.
Proof.
  intros (_ & Hp & _). unfold pending_ok in Hp.
  destruct (debounceTimerRef w).
  - destruct Hp as (_ & _ & e0 & ->). intros t [<-|[]]. auto.
  - rewrite Hp. intros t [].
Qed.

(** ** Events that change a dependency, and events that do not *)

Lemma diverged_false (w : World) :
  diverged w = false <-> internalValue w = orEmpty (value (props w)).
Proof.
  unfold diverged.
  destruct (String.eqb_spec (internalValue w) (orEmpty (value (props w))));
    simpl; split; congruence.
Qed.

Lemma diverged_true (w : World) :
  diverged w = true <-> internalValue w <> orEmpty (value (props w)).
Proof.
  unfold diverged.
  destruct (String.eqb_spec (internalValue w) (orEmpty (value (props w))));
    simpl; split; congruence.
Qed.

Lemma armed_view (m : bool) (p : Props) (s : string) (lg : list Commit)
    (d1 : option (option string)) (d2 : option Deps2) (n0 : positive) :
  let w' :=
    let '(r, ts, n) := armed s p n0 in
    mkWorld m p s r d1 d2 s ts n lg in
  mounted w' = m /\ props w' = p /\ internalValue w' = s /\ log w' = lg /\
  (timers w', debounceTimerRef w') =
    if diverged w'
    then ([mkTimer n0 (delayOf p) 0 (onChange p) s], Some n0)
    else ([], None).
Proof.
  cbv zeta. unfold armed, diverged.
  destruct (s =? orEmpty (value p))%string eqn:E; fields; rewrite E;
    repeat split; reflexivity.
Qed.

(** An event that changes a dependency of the debounce effect makes no call
    but the one a render with another [value] may make, and leaves either no
    timer or one fresh timer, according to whether the cells diverge
    afterwards. *)
Lemma deps_change_restarts (w : World) (e : Event) :
  wf w -> mounted w = true -> deps_change w e = true ->
  let w' := step w e in
  log w' = (log w ++ render_calls w e)%list /\ mounted w' = true /\
  (timers w', debounceTimerRef w') =
    if diverged w'
    then ([mkTimer (next_id w) (delayOf (props w')) 0 (onChange (props w'))
             (internalValue w')], Some (next_id w))
    else ([], None).
Proof.
  intros Hwf Hm Hc. cbv zeta.
  destruct e as [s|p|dt|]; cbn [deps_change step render_calls] in *;
    try discriminate; rewrite Hm.
  - destruct (String.eqb_spec s (internalValue w)) as [E|N];
      [discriminate|].
    rewrite handleInputChange_changed by assumption. cbv zeta.
    pose proof (armed_view (mounted w) (props w) s (log w)
                  (Some (value (props w)))
                  (Some (s, value (props w), onChange (props w),
                         delayOf (props w))) (next_id w)) as H.
    cbv zeta in H. destruct H as (H1 & H2 & H3 & H4 & H5).
    rewrite H1, H2, H3, H4 in *. rewrite app_nil_r. auto.
  - destruct (opt_string_eqb_spec (value (props w)) (value p)) as [Ev|Nv].
    + assert (Hd : onChange p <> onChange (props w) \/
                   delayOf p <> delayOf (props w)).
      { destruct (opt_callback_eqb_spec (onChange p) (onChange (props w)))
          as [Ec|Nc]; [|auto].
        destruct (Z.eq_dec (delayOf p) (delayOf (props w))) as [Ed|Nd];
          [|auto].
        rewrite <- Ev, Ec, Ed, deps2_eqb_refl in Hc. discriminate. }
      rewrite rerender_value_kept by auto. cbv zeta.
      pose proof (armed_view (mounted w) p (internalValue w) (log w)
                    (Some (value p))
                    (Some (internalValue w, value p, onChange p, delayOf p))
                    (next_id w)) as H.
      cbv zeta in H. destruct H as (H1 & H2 & H3 & H4 & H5).
      rewrite H1, H2, H3, H4 in *. cbn [andb negb]. rewrite app_nil_r. auto.
    + rewrite rerender_value_changed by auto. cbv zeta.
      unfold diverged; fields. rewrite String.eqb_refl. cbn [andb negb]. auto.
Qed.

(** An event other than the passage of time adds [render_calls] to the
    log, that is nothing unless it is a render with another [value]. *)
Lemma render_calls_cases (w : World) (e : Event) :
  render_calls w e = [] \/
  exists q cb,
    e = Rerender q /\ mounted w = true /\ value q <> value (props w) /\
    internalValue w <> orEmpty (value q) /\
    host_delay (delayOf q) <= Z.of_N (lag (render_pass (set_props q w))) /\
    onChange q = Some cb /\
    render_calls w e =
      [mkCommit (next_id w) cb
         (mkChangeEvent (internalValue w) (internalValue w))].
Proof.
  destruct e as [s|q|dt|]; cbn [render_calls]; auto.
  destruct (mounted w); cbn [andb]; [|auto].
  destruct (opt_string_eqb_spec (value (props w)) (value q)) as [E|N];
    cbn [negb]; [auto|].
  destruct (stale_call_cases (internalValue w) q (next_id w)
              (lag (render_pass (set_props q w))))
    as [E|(cb & Hn & Hd & Hcb & E)]; [auto|].
  right. exists q, cb. repeat split; auto.
Qed.

(** After an event that changes a dependency, or an unmount, the handle
    that was pending is dead: it left the table and the call the event may
    have made was made by a fresh timer. *)
Lemma pending_handle_dies (w : World) (e : Event) (id : positive) :
  wf w -> debounceTimerRef w = Some id ->
  e = Unmount \/ deps_change w e = true ->
  dead id (step w e).
Proof.
  intros Hwf Hr He.
  destruct (pending_facts w id Hwf Hr) as (Hm & _ & Hlt & Hlog).
  destruct (step_frame w e Hwf) as (Hn & _ & _).
  assert (H : (forall t, In t (timers (step w e)) -> t_id t <> id) /\
              log (step w e) = (log w ++ render_calls w e)%list).
  { destruct He as [->|Hc].
    - cbn [step render_calls]. rewrite Hm, unmount_eq by assumption. fields.
      rewrite app_nil_r. split; [intros t []|reflexivity].
    - destruct (deps_change_restarts w e Hwf Hm Hc) as (Hl & _ & Hts).
      split; [|exact Hl]. apply (f_equal fst) in Hts. cbn [fst] in Hts.
      rewrite Hts. destruct (diverged (step w e)); cbn [fst].
      + intros t [<-|[]]. cbn [t_id]. lia.
      + intros t []. }
  destruct H as (Ht & Hl).
  repeat split; [lia|exact Ht|].
  intros c Hc. rewrite Hl in Hc. apply in_app_or in Hc.
  destruct Hc as [Hc|Hc]; [apply Hlog; exact Hc|].
  destruct (render_calls_cases w e)
    as [E|(q & cb & _ & _ & _ & _ & _ & _ & E)]; rewrite E in Hc;
    [destruct Hc|].
  destruct Hc as [<-|[]]. cbn [c_timer]. lia.
Qed.

(** An event that changes no dependency leaves the cells as they were. *)
Lemma quiet_step_cells (w : World) (e : Event) :
  wf w -> deps_change w e = false ->
  internalValue (step w e) = internalValue w /\
  value (props (step w e)) = value (props w).
Proof.
  intros Hwf Hc. destruct e as [s|p|dt|]; cbn [deps_change step] in *.
  - destruct (mounted w); [|auto].
    destruct (String.eqb_spec s (internalValue w)) as [->|N];
      [|discriminate].
    rewrite handleInputChange_same by assumption. auto.
  - destruct (mounted w); [|auto].
    destruct (deps2_eqb_spec
                (internalValue w, value (props w), onChange (props w),
                 delayOf (props w))
                (internalValue w, value p, onChange p, delayOf p))
      as [E|_]; [|discriminate].
    inversion E. rewrite rerender_same by auto. auto.
  - destruct (elapse_cells dt w) as (_ & -> & ->). auto.
  - destruct (mounted w); [|auto].
    rewrite unmount_eq by assumption. auto.
Qed.

Lemma keystroke_cells (w : World) (s : string) :
  wf w -> mounted w = true ->
  mounted (step w (Keystroke s)) = true /\
  props (step w (Keystroke s)) = props w /\
  internalValue (step w (Keystroke s)) = s.
Proof.
  intros Hwf Hm. simpl. rewrite Hm.
  destruct (String.eqb_spec s (internalValue w)) as [->|N].
  - rewrite handleInputChange_same by assumption. auto.
  - rewrite handleInputChange_changed by assumption. cbv zeta.
    destruct (armed _ _ _) as [[r ts] n]. auto.
Qed.

(** ** The scheduling rule *)

Lemma host_delay_in_range (d : Z) :
  1 <= d <= TIMEOUT_MAX -> host_delay d = d.
Proof.
  intros [H1 H2]. unfold host_delay.
  destruct (Z.leb_spec 1 d); [|lia].
  destruct (Z.leb_spec d TIMEOUT_MAX); [reflexivity|lia].
Qed.

(** An event that leaves the cells diverged makes no call. *)
Lemma diverging_change_makes_no_call (w : World) (e : Event) :
  wf w -> diverged (step w e) = true -> render_calls w e = [].
Proof.
  intros Hwf Hd.
  destruct (render_calls_cases w e)
    as [E|(q & cb & -> & Hm & Hv & _)]; [exact E|].
  exfalso. cbn [step] in Hd. rewrite Hm in Hd.
  rewrite rerender_value_changed in Hd by auto.
  unfold diverged in Hd; cbn [internalValue props] in Hd.
  rewrite String.eqb_refl in Hd.
  discriminate.
Qed.

(** C1, as the code has it.  On the running component, when an event
    changes a dependency of the debounce effect and leaves [internalValue]
    different from [value || '']: the timer that was pending is gone, the
    table holds one new timer requested with [debounceMs], closing over
    [onChange] and [internalValue], its handle is in the ref, and no call was
    made.  The host runs it after [debounceMs] when that lies between 1 and
    2^31-1 and after 1 ms otherwise.  A pause shorter than that makes no call
    and keeps the timer; a pause at least that long makes exactly one call to
    [onChange] (none when it is absent), with [target.value] and
    [currentTarget.value] both [internalValue], nulls the ref and leaves no
    timer, so that more time changes nothing. *)
Theorem schedule_on_divergence (p : Props) (es : list Event) (e : Event)
    (dt : N) :
  let w := run (mount p) es in
  mounted w = true ->
  deps_change w e = true ->
  diverged (step w e) = true ->
  let w' := step w e in
  let t := mkTimer (next_id w) (delayOf (props w')) 0 (onChange (props w'))
             (internalValue w') in
  let u := step w' (Elapse dt) in
  (forall old, In old (timers w) ->
     t_id old <> t_id t /\ ~ In old (timers w')) /\
  timers w' = [t] /\
  debounceTimerRef w' = Some (t_id t) /\
  log w' = log w /\
  (1 <= delayOf (props w') <= TIMEOUT_MAX ->
   host_delay (delayOf (props w')) = delayOf (props w')) /\
  (~ 1 <= delayOf (props w') <= TIMEOUT_MAX ->
   host_delay (delayOf (props w')) = 1) /\
  if host_delay (delayOf (props w')) <=? Z.of_N dt
  then log u =
         (log w ++ match onChange (props w') with
                   | Some cb =>
                       [mkCommit (t_id t) cb
                          (mkChangeEvent (internalValue w') (internalValue w'))]
                   | None => []
                   end)%list /\
       timers u = [] /\ debounceTimerRef u = None /\
       forall more, step u (Elapse more) = u
  else log u = log w /\ timers u = [age dt t] /\
       debounceTimerRef u = Some (t_id t).
Proof.
  cbv zeta. intros Hm Hc Hd. pose proof (wf_reachable p es) as Hwf.
  set (w := run (mount p) es) in *.
  destruct (deps_change_restarts w e Hwf Hm Hc) as (Hl & _ & Hts).
  rewrite (diverging_change_makes_no_call w e Hwf Hd), app_nil_r in Hl.
  rewrite Hd in Hts.
  assert (Ht : timers (step w e) =
               [mkTimer (next_id w) (delayOf (props (step w e))) 0
                  (onChange (props (step w e)))
                  (internalValue (step w e))])
    by (apply (f_equal fst) in Hts; exact Hts).
  assert (Hr : debounceTimerRef (step w e) = Some (next_id w))
    by (apply (f_equal snd) in Hts; exact Hts).
  split; [|split; [exact Ht|split; [exact Hr|split; [exact Hl|]]]].
  - intros old Hold.
    assert (Hlt : (t_id old < next_id w)%positive)
      by (apply Hwf; exact Hold).
    cbn [t_id]. split; [lia|].
    rewrite Ht. intros [E|[]]. rewrite <- E in Hlt. cbn [t_id] in Hlt. lia.
  - split; [apply host_delay_in_range|].
    split.
    { intros Hout. unfold host_delay.
      destruct (Z.leb_spec 1 (delayOf (props (step w e))));
        destruct (Z.leb_spec (delayOf (props (step w e))) TIMEOUT_MAX);
        cbn [andb]; try reflexivity. lia. }
    cbn [step]. rewrite (elapse_single _ dt _ Ht).
    unfold due; cbn [t_delay t_elapsed]. rewrite Z.add_0_l.
    destruct (host_delay (delayOf (props (step w e))) <=? Z.of_N dt).
    + rewrite expire_eq. fields. cbn [t_onChange t_id t_internalValue].
      rewrite Hl. repeat split.
    + fields. repeat split; assumption.
Qed.

(** ** At most one timer *)

(** C6. In every world reachable from a mount the timer table holds at
    most one timer, the one whose handle is in the ref, and only while the
    component is mounted and [internalValue] differs from [value || ''].
    Every unmount and every event that changes a dependency of the debounce
    effect removes the pending timer before anything is armed: whatever timer
    is in the table afterwards is a fresh one, with another handle and no
    time counted. *)
Theorem at_most_one_timer (p : Props) (es : list Event) :
  let w := run (mount p) es in
  (List.length (timers w) <= 1)%nat /\
  (forall t, In t (timers w) -> debounceTimerRef w = Some (t_id t)) /\
  (timers w <> [] -> mounted w = true /\ diverged w = true) /\
  (forall e id,
     debounceTimerRef w = Some id ->
     e = Unmount \/ deps_change w e = true ->
     (e = Unmount \/ diverged (step w e) = false -> timers (step w e) = []) /\
     forall t, In t (timers (step w e)) ->
       t_id t <> id /\ t_id t = next_id w /\ t_elapsed t = 0).
Proof.
  cbv zeta. pose proof (wf_reachable p es) as Hwf.
  set (w := run (mount p) es) in *.
  pose proof Hwf as (_ & Hp & _). unfold pending_ok in Hp.
  split; [|split; [|split]].
  - destruct (debounceTimerRef w) as [id|].
    + destruct Hp as (_ & _ & e & ->). simpl; lia.
    + rewrite Hp. simpl; lia.
  - destruct (debounceTimerRef w) as [id|].
    + destruct Hp as (_ & _ & e & ->). intros t [<-|[]]; reflexivity.
    + rewrite Hp. intros t [].
  - destruct (debounceTimerRef w) as [id|].
    + destruct Hp as (Hm & Hd & _). intros _.
      split; [exact Hm|apply diverged_true; exact Hd].
    + intros H. contradiction.
  - intros e id Hr He.
    destruct (pending_facts w id Hwf Hr) as (Hm & _ & Hlt & _).
    assert (Hts : timers (step w e) = [] \/
                  (diverged (step w e) = true /\ e <> Unmount /\
                   exists d oc iv,
                     timers (step w e) = [mkTimer (next_id w) d 0 oc iv])).
    { destruct He as [->|Hc].
      - left. cbn [step]. rewrite Hm, unmount_eq by assumption. reflexivity.
      - destruct (deps_change_restarts w e Hwf Hm Hc) as (_ & _ & Hts).
        apply (f_equal fst) in Hts. cbn [fst] in Hts.
        destruct (diverged (step w e)); cbn [fst] in Hts; [right|left; exact Hts].
        split; [reflexivity|]. split; [intros ->; discriminate|].
        eexists _, _, _. exact Hts. }
    split.
    + destruct Hts as [E|(Hd & Hne & _)]; [intros _; exact E|].
      intros [E|E]; [contradiction|congruence].
    + destruct Hts as [E|(_ & _ & d & oc & iv & E)]; rewrite E;
        [intros t []|].
      intros t [<-|[]]. cbn [t_id t_elapsed]. repeat split. lia.
Qed.

(** The same holds between the two renders of one entry point: a render
    that starts with at most one timer, named by the ref, ends so. *)
Lemma render_pass_one_timer (w : World) (v0 : option string) (d0 : Deps2) :
  one_timer w -> deps1 w = Some v0 -> deps2 w = Some d0 ->
  one_timer (render_pass w).
Proof.
  intros Hone H1 H2. rewrite (render_pass_eq w v0 d0) by assumption.
  cbv zeta. destruct (deps2_eqb d0 _).
  - exact Hone.
  - unfold armed, one_timer.
    destruct (internalValue w =? orEmpty (value (props w)))%string; fields.
    + reflexivity.
    + eexists; split; reflexivity.
Qed.

(** ** The owner speaks *)


(** C9. When the owner renders the component again with the same [value]
    prop, the sync effect does not run: [internalValue] and what the widget
    shows are what they were, whatever else changed in the props. *)
Theorem same_value_keeps_edit (p : Props) (es : list Event) (p' : Props) :
  let w := run (mount p) es in
  value p' = value (props w) ->
  internalValue (step w (Rerender p')) = internalValue w /\
  widget (step w (Rerender p')) = widget w.
Proof.
  cbv zeta. intros Hv. pose proof (wf_reachable p es) as Hwf.
  simpl. destruct (mounted _) eqn:Hm; [|split; reflexivity].
  destruct (opt_callback_eqb_spec (onChange p')
              (onChange (props (run (mount p) es)))) as [Ec|Nc];
    [destruct (Z.eq_dec (delayOf p') (delayOf (props (run (mount p) es))))
       as [Ed|Nd]|].
  - rewrite rerender_same by assumption. split; reflexivity.
  - rewrite rerender_value_kept by auto. cbv zeta.
    destruct (armed _ _ _) as [[r ts] n]. fields.
    split; [reflexivity|]. symmetry. apply Hwf.
  - rewrite rerender_value_kept by auto. cbv zeta.
    destruct (armed _ _ _) as [[r ts] n]. fields.
    split; [reflexivity|]. symmetry. apply Hwf.
Qed.

(** ** Keystrokes *)

(** C8. A keystroke on the mounted component sets [internalValue] to the
    typed text before the handler returns, and the widget is handed that
    same text; in every reachable world the widget shows [internalValue].
    No delay takes part: the statement holds for every [debounceMs]. *)
Theorem keystroke_shows_at_once (p : Props) (es : list Event) (s : string) :
  let w := run (mount p) es in
  mounted w = true ->
  internalValue (step w (Keystroke s)) = s /\
  widget (step w (Keystroke s)) = s /\
  forall es', widget (run w es') = internalValue (run w es').
Proof.
  cbv zeta. intros Hm. pose proof (wf_reachable p es) as Hwf.
  assert (Hall : forall es',
            widget (run (run (mount p) es) es') =
            internalValue (run (run (mount p) es) es')).
  { intros es'. rewrite <- run_app. apply (wf_reachable p (es ++ es')). }
  simpl. rewrite Hm.
  destruct (String.eqb_spec s (internalValue (run (mount p) es))) as [E|N].
  - subst s. rewrite handleInputChange_same by assumption.
    repeat split; [apply Hwf|exact Hall].
  - rewrite handleInputChange_changed by assumption. cbv zeta.
    destruct (armed _ _ _) as [[r ts] n]. fields.
    repeat split. exact Hall.
Qed.

(** ** Cancellation *)

(** X14. If an event makes [internalValue] equal to [value || ''] while a
    timer is pending, then after that event no timer is pending, the ref is
    null and the timer that was pending never calls [onChange], whatever
    happens next.  When the event is a keystroke (the user edits back) no
    call is made at all; when it is a render by the owner the only call made
    is the one of [render_calls]. *)
Theorem return_to_owner_value_cancels (p : Props) (es : list Event)
    (e : Event) (es' : list N) (id : positive) :
  let w := run (mount p) es in
  debounceTimerRef w = Some id ->
  diverged (step w e) = false ->
  timers (step w e) = [] /\
  debounceTimerRef (step w e) = None /\
  log (step w e) = (log w ++ render_calls w e)%list /\
  (forall s, e = Keystroke s -> log (run (step w e) (map Elapse es')) = log w) /\
  forall hs c, In c (log (run (step w e) hs)) -> c_timer c <> id.
Proof.
  cbv zeta. intros Hr Hd. pose proof (wf_reachable p es) as Hwf.
  destruct (pending_facts _ id Hwf Hr) as (Hm & Hne & _ & _).
  destruct (deps_change (run (mount p) es) e) eqn:Hc.
  - destruct (deps_change_restarts _ e Hwf Hm Hc) as (Hl & _ & Hts).
    rewrite Hd in Hts.
    assert (Ht : timers (step (run (mount p) es) e) = [])
      by (apply (f_equal fst) in Hts; exact Hts).
    assert (Hx : debounceTimerRef (step (run (mount p) es) e) = None)
      by (apply (f_equal snd) in Hts; exact Hts).
    repeat split; try assumption.
    + intros s ->. rewrite idle_time by assumption.
      rewrite Hl. apply app_nil_r.
    + intros hs. apply (dead_run id hs _ (wf_step _ e Hwf)).
      apply pending_handle_dies; auto.
  - exfalso. apply Hne. apply diverged_false in Hd.
    destruct (quiet_step_cells _ e Hwf Hc) as (Hi & Hv).
    rewrite <- Hi, <- Hv. exact Hd.
Qed.

(** C5. If the component is unmounted, or an event changes [internalValue],
    [value], [onChange] or [debounceMs], while a timer is pending, that timer
    leaves the table and no call of [onChange] is ever made by it. *)
Theorem cancelled_timer_never_commits (p : Props) (es : list Event)
    (e : Event) (es' : list Event) (id : positive) :
  let w := run (mount p) es in
  debounceTimerRef w = Some id ->
  e = Unmount \/ deps_change w e = true ->
  (forall t, In t (timers (step w e)) -> t_id t <> id) /\
  (forall c, In c (log (run (step w e) es')) -> c_timer c <> id).
Proof.
  cbv zeta. intros Hr He. pose proof (wf_reachable p es) as Hwf.
  pose proof (pending_handle_dies _ e id Hwf Hr He) as Hdead.
  split; [apply Hdead|].
  apply (dead_run id es' _ (wf_step _ e Hwf) Hdead).
Qed.

(** ** Restarting the countdown *)

(** C4, as the code has it.  While a timer is pending, an event that changes
    a dependency of the debounce effect and leaves the cells diverged
    replaces the timer by a fresh one: another handle, no time elapsed, the
    current [debounceMs], [onChange] and [internalValue]. *)
Theorem mutation_restarts_countdown (p : Props) (es : list Event)
    (e : Event) (id : positive) :
  let w := run (mount p) es in
  debounceTimerRef w = Some id ->
  deps_change w e = true ->
  diverged (step w e) = true ->
  let w' := step w e in
  timers w' = [mkTimer (next_id w) (delayOf (props w')) 0
                 (onChange (props w')) (internalValue w')] /\
  debounceTimerRef w' = Some (next_id w) /\
  next_id w <> id.
Proof.
  cbv zeta. intros Hr Hc Hd. pose proof (wf_reachable p es) as Hwf.
  destruct (pending_facts _ id Hwf Hr) as (Hm & _ & Hlt & _).
  destruct (deps_change_restarts _ e Hwf Hm Hc) as (_ & _ & Hts).
  rewrite Hd in Hts. inversion Hts as [[Ht Hx]].
  repeat split. lia.
Qed.

(** ** Replacing the callback or the delay *)

(** C10. If the owner renders the component with another [onChange] or
    [debounceMs] while a timer is pending, the pending timer is cancelled and
    never calls [onChange]; when [value] is unchanged no call is made by the
    render and the timer is replaced by a fresh one with the new delay and
    the new callback, closing over the current [internalValue].  From then on
    every pending timer carries the delay, the callback and the
    [internalValue] in force, and any call an event makes goes to the
    callback in force when that event ends, never to a replaced one, with the
    [internalValue] in force when the calling timer was armed. *)
Theorem replaced_callback_or_delay_reschedules (p : Props) (es : list Event)
    (p' : Props) (id : positive) :
  let w := run (mount p) es in
  debounceTimerRef w = Some id ->
  onChange p' <> onChange (props w) \/ delayOf p' <> delayOf (props w) ->
  let w' := step w (Rerender p') in
  (value p' = value (props w) ->
   timers w' = [mkTimer (next_id w) (delayOf p') 0 (onChange p')
                  (internalValue w)] /\
   debounceTimerRef w' = Some (next_id w) /\
   log w' = log w) /\
  next_id w <> id /\
  (forall t, In t (timers w') -> t_id t <> id) /\
  log w' = (log w ++ render_calls w (Rerender p'))%list /\
  (forall c, In c (render_calls w (Rerender p')) ->
     c_timer c <> id /\ onChange p' = Some (c_callback c)) /\
  forall es',
    let u := run w' es' in
    (forall c, In c (log u) -> c_timer c <> id) /\
    (forall t, In t (timers u) ->
       t_delay t = delayOf (props u) /\ t_onChange t = onChange (props u) /\
       t_internalValue t = internalValue u) /\
    (forall e,
       log (step u e) = log u \/
       exists id' cb,
         onChange (props (step u e)) = Some cb /\
         log (step u e) =
           (log u ++ [mkCommit id' cb (mkChangeEvent (internalValue u)
                                                      (internalValue u))])%list).
Proof.
  cbv zeta. intros Hr Hd. pose proof (wf_reachable p es) as Hwf.
  destruct (pending_facts _ id Hwf Hr) as (Hm & Hne & Hlt & _).
  assert (Hc : deps_change (run (mount p) es) (Rerender p') = true).
  { cbn [deps_change].
    destruct (deps2_eqb_spec
                (internalValue (run (mount p) es),
                 value (props (run (mount p) es)),
                 onChange (props (run (mount p) es)),
                 delayOf (props (run (mount p) es)))
                (internalValue (run (mount p) es), value p', onChange p',
                 delayOf p')) as [E|_]; [|reflexivity].
    inversion E. destruct Hd; congruence. }
  pose proof (pending_handle_dies _ (Rerender p') id Hwf Hr (or_intror Hc))
    as Hdead.
  destruct (deps_change_restarts _ _ Hwf Hm Hc) as (Hl & _ & _).
  split; [|split; [lia|split; [apply Hdead|split; [exact Hl|split]]]].
  - intros Hv. cbn [step]. rewrite Hm.
    rewrite rerender_value_kept by assumption. cbv zeta.
    rewrite armed_diverged by (rewrite Hv; exact Hne).
    repeat split.
  - intros c Hin.
    destruct (render_calls_cases (run (mount p) es) (Rerender p'))
      as [E|(q & cb & Hq & _ & _ & _ & _ & Hcb & E)]; rewrite E in Hin;
      [destruct Hin|].
    destruct Hin as [<-|[]]. cbn [c_timer c_callback].
    injection Hq as <-. split; [lia|exact Hcb].
  - intros es'.
    pose proof (wf_run es' _ (wf_step _ (Rerender p') Hwf)) as Hu.
    split; [|split].
    + apply (dead_run id es' _ (wf_step _ (Rerender p') Hwf) Hdead).
    + apply pending_carries_current, Hu.
    + intros e. destruct (step_calls _ e Hu) as [H|H]; [auto|].
      right. destruct H as (id' & cb & _ & Hcb & Hl'). exists id', cb. auto.
Qed.

(** ** A burst of keystrokes *)

(** A keystroke that changes the text, followed by a pause shorter than the
    delay: nothing is committed and the cells hold the typed text. *)
Lemma keystroke_then_gap (w : World) (s : string) (gap : N) :
  wf w -> mounted w = true -> s <> internalValue w ->
  Z.of_N gap < host_delay (delayOf (props w)) ->
  let w2 := run w [Keystroke s; Elapse gap] in
  wf w2 /\ mounted w2 = true /\ props w2 = props w /\
  internalValue w2 = s /\ log w2 = log w.
Proof.
  intros Hwf Hm Hs Hgap. cbv zeta.
  change (run w [Keystroke s; Elapse gap])
    with (elapse gap (step w (Keystroke s))).
  assert (Hc : deps_change w (Keystroke s) = true).
  { cbn [deps_change].
    destruct (String.eqb_spec s (internalValue w)); [contradiction|reflexivity]. }
  pose proof (wf_step w (Keystroke s) Hwf) as Hwf1.
  destruct (deps_change_restarts w _ Hwf Hm Hc) as (Hl & _ & Hts).
  cbn [render_calls] in Hl. rewrite app_nil_r in Hl.
  destruct (keystroke_cells w s Hwf Hm) as (Hm1 & Hp1 & Hi1).
  destruct (elapse_cells gap (step w (Keystroke s))) as (Em & Ep & Ei).
  split; [apply wf_elapse; assumption|].
  rewrite Em, Ep, Ei. repeat split; try assumption.
  destruct (elapse_cases _ gap Hwf1)
    as [(_ & ->)|(id & e0 & Hr & Ht & [(Hdue & _)|(_ & ->)])];
    try assumption.
  exfalso. apply (f_equal fst) in Hts. cbn [fst] in Hts.
  rewrite Ht in Hts.
  destruct (diverged (step w (Keystroke s))); cbn [fst] in Hts;
    [|discriminate].
  inversion Hts; subst e0. unfold due in Hdue; cbn [t_delay t_elapsed] in Hdue.
  apply Z.leb_le in Hdue. rewrite Hp1 in Hdue. lia.
Qed.

(** After the whole burst the cells hold the last text, nothing was
    committed and the single timer, if any, has just been started. *)
Lemma burst_run (ks : list (string * N)) :
  forall (w : World) (last : string),
  wf w -> mounted w = true ->
  each_changes (internalValue w) ks last ->
  Forall (fun k => Z.of_N (snd k) < host_delay (delayOf (props w))) ks ->
  let w' := run w (burst ks last) in
  wf w' /\ mounted w' = true /\ props w' = props w /\
  internalValue w' = last /\ log w' = log w /\
  exists n,
    (timers w', debounceTimerRef w') =
      if diverged w'
      then ([mkTimer n (delayOf (props w)) 0 (onChange (props w)) last],
            Some n)
      else ([], None).
Proof.
  induction ks as [|[s gap] ks IH]; intros w last Hwf Hm Hch Hgaps; cbv zeta.
  - cbn [burst each_changes] in *.
    change (run w [Keystroke last]) with (step w (Keystroke last)).
    assert (Hc : deps_change w (Keystroke last) = true).
    { cbn [deps_change].
      destruct (String.eqb_spec last (internalValue w));
        [congruence|reflexivity]. }
    destruct (deps_change_restarts w _ Hwf Hm Hc) as (Hl & _ & Hts).
    cbn [render_calls] in Hl. rewrite app_nil_r in Hl.
    destruct (keystroke_cells w last Hwf Hm) as (Hm1 & Hp1 & Hi1).
    rewrite Hp1, Hi1 in Hts.
    split; [apply wf_step; assumption|].
    repeat (split; [assumption|]).
    exists (next_id w). exact Hts.
  - cbn [burst each_changes] in *. destruct Hch as [Hs Hch].
    inversion Hgaps as [|k ks0 Hgap Hrest]; subst. cbn [snd] in Hgap.
    change (run w (Keystroke s :: Elapse gap :: burst ks last))
      with (run (run w [Keystroke s; Elapse gap]) (burst ks last)).
    destruct (keystroke_then_gap w s gap Hwf Hm (not_eq_sym Hs) Hgap)
      as (Hwf2 & Hm2 & Hp2 & Hi2 & Hl2).
    destruct (IH (run w [Keystroke s; Elapse gap]) last Hwf2 Hm2)
      as (Hwf' & Hm' & Hp' & Hi' & Hl' & n & Hts).
    + rewrite Hi2. exact Hch.
    + rewrite Hp2. exact Hrest.
    + rewrite Hp2 in *. rewrite Hl2 in Hl'.
      repeat (split; [assumption|]). exists n. exact Hts.
Qed.

(** C2, as the code has it.  On a mounted component with a commit callback,
    a burst of keystrokes, each changing the text, with pauses shorter than
    the delay the host waits for ([debounceMs] when it lies between 1 and
    2^31-1, 1 ms otherwise), followed by a silence at least that long: if the
    last text differs from [value || ''], [onChange] is called exactly once,
    with the last text; if it equals [value || ''], [onChange] is not called.
    No timer is left and further silence adds no call. *)
Theorem burst_commits_once (p : Props) (es : list Event)
    (ks : list (string * N)) (last : string) (quiet : N) (cb : Callback) :
  let w := run (mount p) es in
  mounted w = true ->
  onChange (props w) = Some cb ->
  each_changes (internalValue w) ks last ->
  Forall (fun k => Z.of_N (snd k) < host_delay (delayOf (props w))) ks ->
  host_delay (delayOf (props w)) <= Z.of_N quiet ->
  let w' := run w (burst ks last ++ [Elapse quiet]) in
  timers w' = [] /\
  (forall more, log (run w' [Elapse more]) = log w') /\
  if (last =? orEmpty (value (props w)))%string
  then log w' = log w
  else exists id,
         log w' = (log w ++ [mkCommit id cb (mkChangeEvent last last)])%list.
Proof.
  cbv zeta. intros Hm Hcb Hch Hgaps Hq.
  pose proof (wf_reachable p es) as Hwf.
  destruct (burst_run ks _ last Hwf Hm Hch Hgaps)
    as (Hwf1 & Hm1 & Hp1 & Hi1 & Hl1 & n & Hts).
  rewrite run_app.
  set (w := run (mount p) es) in *.
  set (w1 := run w (burst ks last)) in *.
  change (run w1 [Elapse quiet]) with (elapse quiet w1).
  assert (Hdiv : diverged w1 = negb (last =? orEmpty (value (props w)))%string).
  { unfold diverged. rewrite Hi1, Hp1. reflexivity. }
  rewrite Hdiv in Hts.
  assert (Hidle : forall u more, timers u = [] ->
                  log (run u [Elapse more]) = log u).
  { intros u more Hu.
    change (run u [Elapse more]) with (elapse more u).
    rewrite elapse_idle by assumption. reflexivity. }
  destruct (last =? orEmpty (value (props w)))%string; cbn [negb] in Hts;
    inversion Hts as [[Ht Hr]].
  - rewrite elapse_idle by assumption.
    repeat split; auto.
  - rewrite (elapse_single w1 quiet _ Ht).
    assert (Hdue : due quiet (mkTimer n (delayOf (props w)) 0
                                (onChange (props w)) last) = true).
    { unfold due; cbn [t_delay t_elapsed]. apply Z.leb_le. lia. }
    rewrite Hdue. unfold expire; cbn [t_onChange t_id t_internalValue].
    rewrite Hcb. fields. rewrite Hl1.
    split; [reflexivity|]. split; [|exists n; reflexivity].
    intros more. rewrite Hidle by reflexivity. fields.
    rewrite Hl1. reflexivity.
Qed.

(** ** Whole histories *)

Lemma run_snoc (w : World) (es : list Event) (e : Event) :
  run w (es ++ [e]) = step (run w es) e.
Proof. rewrite run_app. reflexivity. Qed.

(** The cells evolve by [next_cells], whatever the timers do. *)
Lemma step_cells (w : World) (e : Event) :
  wf w ->
  (mounted (step w e), props (step w e), internalValue (step w e)) =
  next_cells (mounted w) (props w) (internalValue w) e.
Proof.
  intros Hwf. destruct e as [s|q|dt|]; cbn [step next_cells].
  - destruct (mounted w) eqn:Hm; [|rewrite Hm; reflexivity].
    destruct (keystroke_cells w s Hwf Hm) as (H1 & H2 & H3).
    cbn [step] in H1, H2, H3. rewrite Hm in H1, H2, H3.
    rewrite H1, H2, H3. reflexivity.
  - destruct (mounted w) eqn:Hm; [|rewrite Hm; reflexivity].
    destruct (opt_string_eqb_spec (value (props w)) (value q)) as [Ev|Nv].
    + destruct (opt_callback_eqb_spec (onChange q) (onChange (props w)))
        as [Ec|Nc];
        [destruct (Z.eq_dec (delayOf q) (delayOf (props w))) as [Ed|Nd]|].
      * rewrite rerender_same by auto. fields. rewrite Hm. reflexivity.
      * rewrite rerender_value_kept by auto. cbv zeta.
        destruct (armed _ _ _) as [[r ts] n]. fields. rewrite Hm. reflexivity.
      * rewrite rerender_value_kept by auto. cbv zeta.
        destruct (armed _ _ _) as [[r ts] n]. fields. rewrite Hm. reflexivity.
    + rewrite rerender_value_changed by auto. fields. rewrite Hm. reflexivity.
  - destruct (elapse_cells dt w) as (-> & -> & ->). reflexivity.
  - destruct (mounted w) eqn:Hm.
    + rewrite unmount_eq by assumption. reflexivity.
    + rewrite Hm. reflexivity.
Qed.

(** An event other than the passage of time adds [render_calls] to the
    log. *)
Lemma mutation_log (w : World) (e : Event) :
  wf w -> is_elapse e = false ->
  log (step w e) = (log w ++ render_calls w e)%list.
Proof.
  intros Hwf He.
  destruct e as [s|q|dt|]; cbn [step render_calls]; try discriminate.
  - rewrite app_nil_r. destruct (mounted w) eqn:Hm; [|reflexivity].
    destruct (String.eqb_spec s (internalValue w)) as [->|N].
    + rewrite handleInputChange_same by assumption. reflexivity.
    + rewrite handleInputChange_changed by assumption. cbv zeta.
      destruct (armed _ _ _) as [[r ts] n]. reflexivity.
  - destruct (mounted w) eqn:Hm; cbn [andb]; [|symmetry; apply app_nil_r].
    destruct (opt_string_eqb_spec (value (props w)) (value q)) as [Ev|Nv];
      cbn [negb].
    + rewrite app_nil_r.
      destruct (opt_callback_eqb_spec (onChange q) (onChange (props w)))
        as [Ec|Nc];
        [destruct (Z.eq_dec (delayOf q) (delayOf (props w))) as [Ed|Nd]|].
      * rewrite rerender_same by auto. reflexivity.
      * rewrite rerender_value_kept by auto. cbv zeta.
        destruct (armed _ _ _) as [[r ts] n]. reflexivity.
      * rewrite rerender_value_kept by auto. cbv zeta.
        destruct (armed _ _ _) as [[r ts] n]. reflexivity.
    + rewrite rerender_value_changed by auto. reflexivity.
  - rewrite app_nil_r. destruct (mounted w) eqn:Hm; [|reflexivity].
    rewrite unmount_eq by assumption. reflexivity.
Qed.

Lemma synced_has_no_timer (w : World) :
  wf w -> internalValue w = orEmpty (value (props w)) ->
  timers w = [] /\ debounceTimerRef w = None.
Proof.
  intros (_ & Hp & _) E. unfold pending_ok in Hp.
  destruct (debounceTimerRef w).
  - destruct Hp as (_ & N & _). contradiction.
  - auto.
Qed.

Lemma unmounted_has_no_timer (w : World) :
  wf w -> mounted w = false ->
  timers w = [] /\ debounceTimerRef w = None.
Proof.
  intros (_ & Hp & _) E. unfold pending_ok in Hp.
  destruct (debounceTimerRef w).
  - destruct Hp as (Hm & _). congruence.
  - auto.
Qed.

Lemma unmounted_step (w : World) (e : Event) :
  wf w -> mounted w = false -> step w e = w.
Proof.
  intros Hwf Hm. destruct e as [s|q|dt|]; cbn [step]; rewrite ?Hm;
    try reflexivity.
  apply elapse_idle. apply (unmounted_has_no_timer w Hwf Hm).
Qed.

Lemma expire_age (dt : N) (t : Timer) (w : World) :
  expire (age dt t) w = expire t w.
Proof. reflexivity. Qed.

(** ** Mounting *)

(** X1. Mounting never schedules anything: whatever the props,
    [internalValue] and the widget hold [value || ''] (the empty string when
    [value] is absent), no timer is pending, [onChange] has not been called,
    and time alone changes nothing. *)
Theorem mount_is_idle (p : Props) (dts : list N) :
  internalValue (mount p) = orEmpty (value p) /\
  widget (mount p) = orEmpty (value p) /\
  timers (mount p) = [] /\
  debounceTimerRef (mount p) = None /\
  log (mount p) = [] /\
  run (mount p) (map Elapse dts) = mount p.
Proof.
  repeat split; try (rewrite mount_eq; reflexivity).
  apply idle_time. rewrite mount_eq; reflexivity.
Qed.

(** ** The owner adopts the text *)

(** X2. When the owner renders the mounted component with a [value] whose
    [value || ''] is the current [internalValue] (for instance the text just
    committed), the text stays, no timer is pending afterwards, [onChange] is
    not called by the render, and no later silence calls it. *)
Theorem owner_adopting_text_goes_idle (p : Props) (es : list Event)
    (p' : Props) (dts : list N) :
  let w := run (mount p) es in
  mounted w = true ->
  orEmpty (value p') = internalValue w ->
  let w' := step w (Rerender p') in
  internalValue w' = internalValue w /\
  timers w' = [] /\
  debounceTimerRef w' = None /\
  log w' = log w /\
  log (run w' (map Elapse dts)) = log w.
Proof.
  cbv zeta. intros Hm Hv. pose proof (wf_reachable p es) as Hwf.
  set (w := run (mount p) es) in *.
  pose proof (wf_step w (Rerender p') Hwf) as Hwf'.
  pose proof (step_cells w (Rerender p') Hwf) as Hc.
  cbn [next_cells] in Hc. rewrite Hm in Hc.
  assert (Hp : props (step w (Rerender p')) = p')
    by (apply (f_equal (fun x => snd (fst x))) in Hc; exact Hc).
  assert (Hi : internalValue (step w (Rerender p')) = internalValue w).
  { apply (f_equal snd) in Hc. cbn [snd] in Hc. rewrite Hc, Hv.
    destruct (opt_string_eqb _ _); reflexivity. }
  assert (Hl : log (step w (Rerender p')) = log w).
  { rewrite mutation_log by (assumption || reflexivity).
    destruct (render_calls_cases w (Rerender p'))
      as [E|(q & cb & Hq & _ & _ & Hn & _)]; [rewrite E; apply app_nil_r|].
    injection Hq as <-. symmetry in Hv. contradiction. }
  destruct (synced_has_no_timer _ Hwf') as (Ht & Hr).
  { rewrite Hi, Hp. symmetry. exact Hv. }
  repeat split; try assumption.
  rewrite idle_time by assumption. exact Hl.
Qed.

(** ** After the unmount *)

(** X3. Once unmounted the component is inert: no keystroke, render, pause
    or second unmount changes anything, so [onChange] is never called
    again. *)
Theorem unmounted_is_inert (p : Props) (es es' : list Event) :
  let w := step (run (mount p) es) Unmount in
  run w es' = w.
Proof.
  cbv zeta. pose proof (wf_reachable p es) as Hwf.
  pose proof (wf_step _ Unmount Hwf) as Hwf'.
  assert (Hm : mounted (step (run (mount p) es) Unmount) = false).
  { pose proof (step_cells _ Unmount Hwf) as Hc. cbn [next_cells] in Hc.
    apply (f_equal (fun x => fst (fst x))) in Hc. exact Hc. }
  induction es' as [|e es' IH]; [reflexivity|].
  cbn [run fold_left]. rewrite unmounted_step by assumption. exact IH.
Qed.

(** ** No callback *)

(** X4. When neither the mount nor any later render supplies [onChange],
    nothing is ever called: the guard of the timer callback holds in every
    history. *)
Theorem no_callback_no_commit (p : Props) (es : list Event) :
  onChange p = None ->
  Forall no_callback es ->
  log (run (mount p) es) = [].
Proof.
  intros Hp Hes.
  assert (H : onChange (props (run (mount p) es)) = None /\
              log (run (mount p) es) = []).
  { induction es as [|e es IH] using rev_ind.
    - cbn [run fold_left]. rewrite mount_eq. auto.
    - apply Forall_app in Hes as [Hes He].
      inversion He as [|e0 l0 Hne _]; subst.
      destruct (IH Hes) as (Hc & Hl). rewrite run_snoc.
      pose proof (wf_reachable p es) as Hwf. split.
      + pose proof (step_cells _ e Hwf) as Hs.
        apply (f_equal (fun x => snd (fst x))) in Hs. cbn [fst snd] in Hs.
        rewrite Hs.
        destruct e as [s|q|dt|]; cbn [next_cells];
          try (destruct (mounted (run (mount p) es)));
          cbn [fst snd]; assumption.
      + destruct (step_calls _ e Hwf) as [E|E].
        * rewrite E. exact Hl.
        * destruct E as (id & cb & _ & Hcb & _).
          pose proof (step_cells _ e Hwf) as Hs.
          apply (f_equal (fun x => snd (fst x))) in Hs. cbn [fst snd] in Hs.
          rewrite Hs in Hcb.
          destruct e as [s|q|dt|]; cbn [next_cells] in Hcb;
            try (destruct (mounted (run (mount p) es)));
            cbn [fst snd] in Hcb; congruence. }
  apply H.
Qed.

(** ** Renders that change nothing *)

(** X5. A render by the owner that changes none of [value], [onChange] and
    [debounceMs] (an absent [debounceMs] and 3000 are the same delay) leaves
    the pending timer running with the time it has already counted, and
    leaves the text, the handle and the calls made untouched. *)
Theorem stable_rerender_keeps_timer (p : Props) (es : list Event)
    (p' : Props) :
  let w := run (mount p) es in
  value p' = value (props w) ->
  onChange p' = onChange (props w) ->
  delayOf p' = delayOf (props w) ->
  let w' := step w (Rerender p') in
  timers w' = timers w /\
  debounceTimerRef w' = debounceTimerRef w /\
  internalValue w' = internalValue w /\
  next_id w' = next_id w /\
  log w' = log w.
Proof.
  cbv zeta. intros Hv Hc Hd. pose proof (wf_reachable p es) as Hwf.
  cbn [step]. destruct (mounted _); [|repeat split].
  rewrite rerender_same by assumption. repeat split.
Qed.

(** ** What is committed *)

Lemma owner_texts_app (es es' : list Event) :
  owner_texts (es ++ es') = (owner_texts es ++ owner_texts es')%list.
Proof.
  induction es as [|e es IH]; [reflexivity|].
  destruct e; cbn [app owner_texts]; rewrite IH; reflexivity.
Qed.

Lemma known_text_snoc (p : Props) (es : list Event) (e : Event) (s : string) :
  known_text p es s -> known_text p (es ++ [e]) s.
Proof.
  unfold known_text. intros [H|[H|H]]; [left|right; left|right; right].
  - apply in_or_app; left; exact H.
  - exact H.
  - rewrite owner_texts_app. apply in_or_app; left; exact H.
Qed.

(** The text of the field is always a known text. *)
Lemma text_is_known (p : Props) (es : list Event) :
  known_text p es (internalValue (run (mount p) es)).
Proof.
  induction es as [|e es IH] using rev_ind.
  - cbn [run fold_left]. rewrite mount_eq; fields.
    right; left; reflexivity.
  - rewrite run_snoc. pose proof (wf_reachable p es) as Hwf.
    set (w := run (mount p) es) in *.
    pose proof (step_cells w e Hwf) as Hc.
    apply (f_equal snd) in Hc. cbn [snd] in Hc. rewrite Hc. clear Hc.
    pose proof (known_text_snoc p es e _ IH) as Hold.
    destruct e as [s|q|dt|]; cbn [next_cells];
      try (destruct (mounted w)); cbn [snd]; try exact Hold.
    + left. apply in_or_app; right; left; reflexivity.
    + destruct (opt_string_eqb _ _); [exact Hold|].
      right; right. rewrite owner_texts_app. apply in_or_app; right.
      left; reflexivity.
Qed.

(** X6. [onChange] never receives a made-up text: in every history, each
    call made carries, in [target.value] and in [currentTarget.value] alike,
    a text that was typed in that history or supplied by the owner as
    [value || ''], at the mount or in a render. *)
Theorem commits_carry_known_text (p : Props) (es : list Event) (c : Commit) :
  In c (log (run (mount p) es)) ->
  known_text p es (target_value (c_event c)) /\
  currentTarget_value (c_event c) = target_value (c_event c).
Proof.
  induction es as [|e es IH] using rev_ind.
  - cbn [run fold_left]. rewrite mount_eq. intros [].
  - rewrite run_snoc. pose proof (wf_reachable p es) as Hwf. intros Hin.
    destruct (step_calls _ e Hwf) as [E|(id & cb & _ & _ & E)];
      rewrite E in Hin.
    + destruct (IH Hin) as (H1 & H2). split; [|exact H2].
      apply known_text_snoc; exact H1.
    + apply in_app_or in Hin. destruct Hin as [Hin|[<-|[]]].
      * destruct (IH Hin) as (H1 & H2). split; [|exact H2].
        apply known_text_snoc; exact H1.
      * cbn [c_event target_value currentTarget_value].
        split; [|reflexivity]. apply known_text_snoc, text_is_known.
Qed.

(** X7. One event makes at most one call to [onChange].  A keystroke and
    an unmount make none.  A pause makes one only for the pending timer, to
    the callback in force, with the current [internalValue], which differs
    from the owner's [value || ''].  A render makes one only when it brings
    another [value], the text it replaces differs from the new
    [value || ''], [onChange] is supplied and the host waits at least the
    delay of the timer armed with the replaced text: the call then carries
    the replaced text to the new callback. *)
Theorem calls_of_one_event (p : Props) (es : list Event) (e : Event) :
  let u := run (mount p) es in
  log (step u e) = log u \/
  (exists dt id cb,
     e = Elapse dt /\
     debounceTimerRef u = Some id /\
     onChange (props u) = Some cb /\
     internalValue u <> orEmpty (value (props u)) /\
     log (step u e) =
       (log u ++ [mkCommit id cb (mkChangeEvent (internalValue u)
                                                 (internalValue u))])%list) \/
  (exists q cb,
     e = Rerender q /\
     value q <> value (props u) /\
     internalValue u <> orEmpty (value q) /\
     host_delay (delayOf q) <= Z.of_N (lag (render_pass (set_props q u))) /\
     onChange q = Some cb /\
     log (step u e) =
       (log u ++ [mkCommit (next_id u) cb
                    (mkChangeEvent (internalValue u)
                                   (internalValue u))])%list).
Proof.
  cbv zeta. pose proof (wf_reachable p es) as Hwf.
  destruct (step_frame _ e Hwf)
    as (_ & _ & [E|[(dt & id & cb & He & Hr & Hcb & E)
                   |(q & cb & He & _ & Hv & Hn & Hd & Hcb & _ & E)]]).
  - left; exact E.
  - right; left. exists dt, id, cb. repeat split; try assumption.
    apply (pending_facts _ id Hwf Hr).
  - right; right. exists q, cb. repeat split; assumption.
Qed.

(** X8. A timer calls [onChange] at most once: no two calls of a history
    were made by the same timer. *)
Theorem each_timer_commits_at_most_once (p : Props) (es : list Event) :
  NoDup (map c_timer (log (run (mount p) es))).
Proof.
  induction es as [|e es IH] using rev_ind.
  - cbn [run fold_left]. rewrite mount_eq. constructor.
  - rewrite run_snoc. pose proof (wf_reachable p es) as Hwf.
    destruct (step_calls _ e Hwf) as [E|(id & cb & Hr & _ & E)];
      rewrite E; [exact IH|].
    rewrite map_app. apply NoDup_app; [exact IH|repeat constructor; intros []|].
    intros a Ha [<-|[]]. cbn [map c_timer] in Ha.
    apply in_map_iff in Ha. destruct Ha as (c & Hc & Hin).
    destruct Hr as [Hr|Hr].
    + destruct (pending_facts _ id Hwf Hr) as (_ & _ & _ & Hn).
      apply (Hn c Hin). exact Hc.
    + destruct Hwf as (_ & _ & (_ & Hlog & _)).
      specialize (Hlog c Hin). lia.
Qed.

(** X9. Debouncing never multiplies calls: the calls made so far plus the
    timer still pending never exceed the number of keystrokes and renders of
    the history. *)
Theorem commits_bounded_by_mutations (p : Props) (es : list Event) :
  (List.length (log (run (mount p) es)) +
   List.length (timers (run (mount p) es)) <= count_mutations es)%nat.
Proof.
  unfold count_mutations.
  induction es as [|e es IH] using rev_ind.
  - cbn [run fold_left]. rewrite mount_eq. simpl. lia.
  - rewrite run_snoc, filter_app, length_app.
    pose proof (wf_reachable p es) as Hwf.
    set (w := run (mount p) es) in *.
    assert (Hone : (List.length (timers (step w e)) <= 1)%nat).
    { pose proof (wf_one_timer _ (wf_step w e Hwf)) as H.
      unfold one_timer in H. destruct (debounceTimerRef (step w e)).
      - destruct H as (t & -> & _). simpl; lia.
      - rewrite H. simpl; lia. }
    destruct e as [s|q|dt|]; cbn [filter is_mutation List.length].
    + rewrite (mutation_log w (Keystroke s) Hwf eq_refl).
      cbn [render_calls]. rewrite app_nil_r. lia.
    + rewrite (mutation_log w (Rerender q) Hwf eq_refl), length_app.
      destruct (render_calls_cases w (Rerender q))
        as [E|(q' & cb & Hq & Hm & Hv & _ & _ & _ & E)]; rewrite E.
      * cbn [List.length]. lia.
      * injection Hq as <-.
        assert (Ht : timers (step w (Rerender q)) = []).
        { cbn [step]. rewrite Hm, rerender_value_changed by assumption.
          reflexivity. }
        rewrite Ht. cbn [List.length]. lia.
    + cbn [step].
      destruct (elapse_cases w dt Hwf)
        as [(_ & ->)|(id & e0 & Hr & Hts & [(_ & ->)|(_ & ->)])].
      * lia.
      * rewrite Hts in IH. unfold expire; cbn [t_onChange].
        destruct (onChange (props w)); fields;
          rewrite ?length_app; simpl in *; lia.
      * rewrite Hts in IH. fields. simpl in *. lia.
    + rewrite (mutation_log w Unmount Hwf eq_refl).
      cbn [render_calls]. rewrite app_nil_r.
      assert (Ht : timers (step w Unmount) = []).
      { apply unmounted_has_no_timer; [apply wf_step; assumption|].
        pose proof (step_cells w Unmount Hwf) as Hc.
        apply (f_equal (fun x => fst (fst x))) in Hc. exact Hc. }
      rewrite Ht. simpl. lia.
Qed.

(** ** Time *)

(** X10. Only the total of the time passed counts: two pauses in a row
    leave the component, its timer and the calls made exactly as one pause of
    their sum. *)
Theorem elapsed_time_adds_up (p : Props) (es : list Event) (a b : N) :
  let w := run (mount p) es in
  run w [Elapse a; Elapse b] = run w [Elapse (a + b)].
Proof.
  cbv zeta. pose proof (wf_reachable p es) as Hwf.
  set (w := run (mount p) es) in *.
  change (elapse b (elapse a w) = elapse (a + b) w).
  destruct (elapse_cases w a Hwf)
    as [(Hr & Ea)|(id & e0 & Hr & Hts & [(Hdue & Ea)|(Hdue & Ea)])].
  - rewrite Ea.
    assert (Ht : timers w = []).
    { destruct Hwf as (_ & Hp & _). unfold pending_ok in Hp.
      rewrite Hr in Hp. exact Hp. }
    rewrite !elapse_idle by assumption. reflexivity.
  - rewrite Ea, (elapse_single w (a + b) _ Hts).
    assert (Hd : due (a + b) (mkTimer id (delayOf (props w)) e0
                                (onChange (props w)) (internalValue w)) = true).
    { unfold due in *; cbn [t_delay t_elapsed] in *.
      apply Z.leb_le in Hdue. apply Z.leb_le. lia. }
    rewrite Hd. apply elapse_idle.
    unfold expire; cbn [t_onChange]. destruct (onChange (props w)); reflexivity.
  - rewrite Ea, (elapse_single w (a + b) _ Hts).
    rewrite (elapse_single _ b (age a (mkTimer id (delayOf (props w)) e0
                                        (onChange (props w))
                                        (internalValue w))))
      by reflexivity.
    assert (Hd : due b (age a (mkTimer id (delayOf (props w)) e0
                                 (onChange (props w)) (internalValue w))) =
                 due (a + b) (mkTimer id (delayOf (props w)) e0
                                (onChange (props w)) (internalValue w))).
    { unfold due, age; cbn [t_delay t_elapsed].
      rewrite N2Z.inj_add, Z.add_assoc. reflexivity. }
    rewrite Hd. destruct (due (a + b) _).
    + rewrite expire_age. reflexivity.
    + unfold age, set_timers; cbn.
      rewrite N2Z.inj_add, Z.add_assoc. reflexivity.
Qed.

Lemma cells_step_congr (w1 w2 : World) (e : Event) :
  wf w1 -> wf w2 ->
  mounted w1 = mounted w2 /\ props w1 = props w2 /\
  internalValue w1 = internalValue w2 ->
  mounted (step w1 e) = mounted (step w2 e) /\
  props (step w1 e) = props (step w2 e) /\
  internalValue (step w1 e) = internalValue (step w2 e).
Proof.
  intros H1 H2 (Hm & Hp & Hi).
  pose proof (step_cells w1 e H1) as C1.
  pose proof (step_cells w2 e H2) as C2.
  rewrite Hm, Hp, Hi, <- C2 in C1.
  repeat split;
    [apply (f_equal (fun x => fst (fst x))) in C1
    |apply (f_equal (fun x => snd (fst x))) in C1
    |apply (f_equal snd) in C1]; exact C1.
Qed.

(** X11. Time never touches what the user sees: removing every pause from
    a history leaves [mounted], the props, [internalValue] and the value
    handed to the widget as they are with the pauses, timers firing or not. *)
Theorem time_does_not_touch_cells (p : Props) (es : list Event) :
  let w := run (mount p) es in
  let w' := run (mount p) (without_time es) in
  mounted w = mounted w' /\ props w = props w' /\
  internalValue w = internalValue w' /\ widget w = widget w'.
Proof.
  cbv zeta.
  assert (H : mounted (run (mount p) es) =
              mounted (run (mount p) (without_time es)) /\
              props (run (mount p) es) =
              props (run (mount p) (without_time es)) /\
              internalValue (run (mount p) es) =
              internalValue (run (mount p) (without_time es))).
  { unfold without_time.
    induction es as [|e es IH] using rev_ind; [auto|].
    rewrite filter_app, run_snoc.
    pose proof (wf_reachable p es) as Hwf.
    pose proof (wf_reachable p (filter (fun e => negb (is_elapse e)) es))
      as Hwf'.
    destruct (is_elapse e) eqn:He.
    - destruct e as [s|q|dt|]; try discriminate.
      cbn [filter is_elapse negb step]. rewrite app_nil_r.
      destruct (elapse_cells dt (run (mount p) es)) as (-> & -> & ->).
      exact IH.
    - assert (Hf : filter (fun e => negb (is_elapse e)) [e] = [e])
        by (cbn [filter]; rewrite He; reflexivity).
      rewrite Hf, run_snoc.
      apply cells_step_congr; assumption. }
  destruct H as (Hm & Hp & Hi). repeat split; try assumption.
  destruct (wf_reachable p es) as ((_ & _ & ->) & _).
  destruct (wf_reachable p (without_time es)) as ((_ & _ & ->) & _).
  exact Hi.
Qed.

(** ** The most recent keystroke *)




(** X13. A keystroke whose text is the current [internalValue] changes
    nothing at all: not the cells, not the pending timer or the time it has
    counted, not the calls made. *)
Theorem same_text_keystroke_is_noop (p : Props) (es : list Event) :
  let w := run (mount p) es in
  step w (Keystroke (internalValue w)) = w.
Proof.
  cbv zeta. pose proof (wf_reachable p es) as Hwf. cbn [step].
  destruct (mounted _); [|reflexivity].
  apply handleInputChange_same. exact Hwf.
Qed.

End Scheduler.

(** ** Worked examples *)

Lemma schedule_on_divergence_witness :
  let w := run no_lag (mount owner_empty) [Keystroke "a"; Elapse 100] in
  let w' := step no_lag w (Keystroke "ab") in
  mounted w = true /\
  deps_change w (Keystroke "ab") = true /\
  diverged w' = true /\
  timers w = [mkTimer 1 3000 100 (Some 7%nat) "a"] /\
  timers w' = [mkTimer 2 3000 0 (Some 7%nat) "ab"] /\
  log (step no_lag w' (Elapse 3000)) =
    [mkCommit 2 7%nat (mkChangeEvent "ab" "ab")] /\
  timers (step no_lag w' (Elapse 3000)) = [].
Proof.
  cbv zeta. do 4 (split; [reflexivity|]).
  pose proof (schedule_on_divergence no_lag owner_empty
                [Keystroke "a"; Elapse 100] (Keystroke "ab") 3000%N
                ltac:(reflexivity) ltac:(reflexivity) ltac:(reflexivity))
    as (_ & H1 & _ & _ & _ & _ & H2).
  split; [exact H1|]. split; [exact (proj1 H2)|exact (proj1 (proj2 H2))].
Defined.

(** C1, as the specification states it, fails: the timer does not have
    length [debounceMs] when that lies outside what the host accepts.  With
    [debounceMs = 2^31] the call is made after 1 ms; with [debounceMs = 0]
    nothing is due before 1 ms has passed. *)
Lemma delay_out_of_range_runs_after_1ms :
  delayOf (mkProps (Some "") (Some 7%nat) (Some 2147483648)) = 2147483648 /\
  log (run no_lag (mount (mkProps (Some "") (Some 7%nat) (Some 2147483648)))
         [Keystroke "a"; Elapse 1]) =
    [mkCommit 1 7%nat (mkChangeEvent "a" "a")] /\
  log (run no_lag (mount (mkProps (Some "") (Some 7%nat) (Some 0)))
         [Keystroke "a"; Elapse 0]) = [] /\
  log (run no_lag (mount (mkProps (Some "") (Some 7%nat) (Some 0)))
         [Keystroke "a"; Elapse 1]) =
    [mkCommit 1 7%nat (mkChangeEvent "a" "a")].
Proof. repeat split; reflexivity. Qed.

Lemma burst_commits_once_witness :
  let w := run no_lag (mount owner_empty) [] in
  let w' := run no_lag w (burst [("a", 100%N)] "ab" ++ [Elapse 3000]) in
  mounted w = true /\
  onChange (props w) = Some 7%nat /\
  each_changes (internalValue w) [("a", 100%N)] "ab" /\
  Forall (fun k => Z.of_N (snd k) < host_delay (delayOf (props w)))
    [("a", 100%N)] /\
  host_delay (delayOf (props w)) <= Z.of_N 3000 /\
  timers w' = [] /\
  exists id, log w' = [mkCommit id 7%nat (mkChangeEvent "ab" "ab")].
Proof.
  cbv zeta.
  assert (H1 : mounted (run no_lag (mount owner_empty) []) = true)
    by reflexivity.
  assert (H2 : onChange (props (run no_lag (mount owner_empty) [])) =
               Some 7%nat) by reflexivity.
  assert (H3 : each_changes (internalValue (run no_lag (mount owner_empty) []))
                 [("a", 100%N)] "ab")
    by (split; discriminate).
  assert (H4 : Forall (fun k => Z.of_N (snd k)
                                < host_delay
                                    (delayOf (props (run no_lag
                                                       (mount owner_empty) []))))
                 [("a", 100%N)])
    by (constructor; [reflexivity|constructor]).
  assert (H5 : host_delay (delayOf (props (run no_lag (mount owner_empty) [])))
               <= Z.of_N 3000)
    by (vm_compute; discriminate).
  pose proof (burst_commits_once no_lag owner_empty [] [("a", 100%N)] "ab"
                3000%N 7%nat H1 H2 H3 H4 H5) as (Ht & _ & Hlog).
  repeat (split; [assumption|]).
  exact Hlog.
Defined.

(** C2, as the specification states it, fails in three ways.  With owner
    value ["x"] and [debounceMs = 500], typing ["y"] and 200 ms later ["x"]
    commits nothing, however long the silence.  With owner value [""] and the
    default delay, typing ["a"], the same ["a"] 2000 ms later and ["ab"]
    2000 ms after that commits twice, first the intermediate ["a"].  With
    [debounceMs = 2^31] the host waits 1 ms only, so keystrokes 50 ms apart
    are committed one by one. *)
Lemma burst_does_not_always_commit_once :
  log (run no_lag (mount owner_x)
         (burst [("y", 200%N)] "x" ++ [Elapse 500])) = [] /\
  log (run no_lag (mount owner_x)
         (burst [("y", 200%N)] "x" ++ [Elapse 100000])) = [] /\
  ~ (exists c,
       log (run no_lag (mount owner_x)
              (burst [("y", 200%N)] "x" ++ [Elapse 500])) = [c]) /\
  log (run no_lag (mount owner_empty)
         (burst [("a", 2000%N); ("a", 2000%N)] "ab" ++ [Elapse 3000])) =
    [mkCommit 1 7%nat (mkChangeEvent "a" "a");
     mkCommit 2 7%nat (mkChangeEvent "ab" "ab")] /\
  ~ (exists c,
       log (run no_lag (mount owner_empty)
              (burst [("a", 2000%N); ("a", 2000%N)] "ab" ++ [Elapse 3000]))
       = [c]) /\
  log (run no_lag (mount (mkProps (Some "") (Some 7%nat) (Some 2147483648)))
         (burst [("a", 50%N)] "ab" ++ [Elapse 2147483648])) =
    [mkCommit 1 7%nat (mkChangeEvent "a" "a");
     mkCommit 2 7%nat (mkChangeEvent "ab" "ab")].
Proof.
  repeat split; try reflexivity; intros [c H]; vm_compute in H; discriminate.
Qed.

(** C3.  The failing input.  With owner value ["x"] the user types ["y"];
    200 ms later the owner renders with value ["z"] and [debounceMs = 0].
    The first pass of that render arms a timer with the text ["y"] it read;
    the host lets a millisecond pass before the render queued by the sync
    effect, the timer runs and [onChange] receives ["y"], although
    [internalValue] has become equal to the owner's value and the pending
    timer was cancelled.  The same happens without any keystroke: the owner
    is told its own former value ["x"].  A host that runs the queued render
    at once makes neither call. *)
Lemma owner_push_commits_replaced_text :
  let push := Rerender (mkProps (Some "z") (Some 7%nat) (Some 0)) in
  let w := run lag_1ms (mount owner_x) [Keystroke "y"; Elapse 200] in
  debounceTimerRef w = Some 1%positive /\
  log w = [] /\
  internalValue (step lag_1ms w push) = "z" /\
  diverged (step lag_1ms w push) = false /\
  timers (step lag_1ms w push) = [] /\
  log (step lag_1ms w push) = [mkCommit 2 7%nat (mkChangeEvent "y" "y")] /\
  log (run lag_1ms (mount (mkProps (Some "x") (Some 7%nat) (Some 0)))
         [push; Elapse 120]) =
    [mkCommit 1 7%nat (mkChangeEvent "x" "x")] /\
  log (run no_lag (mount owner_x) [Keystroke "y"; Elapse 200; push]) = [] /\
  log (run no_lag (mount (mkProps (Some "x") (Some 7%nat) (Some 0)))
         [push; Elapse 120]) = [].
Proof. cbv zeta. repeat split; reflexivity. Qed.

Lemma return_to_owner_value_cancels_witness :
  let w := run no_lag (mount owner_x) [Keystroke "y"; Elapse 200] in
  debounceTimerRef w = Some 1%positive /\
  diverged (step no_lag w (Keystroke "x")) = false /\
  timers (step no_lag w (Keystroke "x")) = [] /\
  log (run no_lag (step no_lag w (Keystroke "x")) (map Elapse [10000%N])) = [].
Proof.
  cbv zeta. split; [reflexivity|]. split; [reflexivity|].
  pose proof (return_to_owner_value_cancels no_lag owner_x
                [Keystroke "y"; Elapse 200] (Keystroke "x") [10000%N]
                1%positive ltac:(reflexivity) ltac:(reflexivity))
    as (H1 & _ & _ & H2 & _).
  split; [exact H1|exact (H2 "x" eq_refl)].
Defined.

Lemma cancelled_timer_never_commits_witness :
  let w := run no_lag (mount owner_empty) [Keystroke "a"; Elapse 2999] in
  debounceTimerRef w = Some 1%positive /\
  timers (step no_lag w Unmount) = [] /\
  forall c, In c (log (run no_lag (step no_lag w Unmount) [Elapse 5000])) ->
            c_timer c <> 1%positive.
Proof.
  cbv zeta. split; [reflexivity|]. split; [reflexivity|].
  exact (proj2 (cancelled_timer_never_commits no_lag owner_empty
                  [Keystroke "a"; Elapse 2999] Unmount [Elapse 5000]
                  1%positive ltac:(reflexivity) (or_introl eq_refl))).
Defined.

Lemma at_most_one_timer_witness :
  let w := run no_lag (mount owner_x) [Keystroke "y"; Elapse 200] in
  debounceTimerRef w = Some 1%positive /\
  timers w = [mkTimer 1 500 200 (Some 7%nat) "y"] /\
  timers (step no_lag w Unmount) = [] /\
  timers (step no_lag w (Keystroke "x")) = [] /\
  forall t, In t (timers (step no_lag w (Keystroke "yz"))) ->
            t_id t <> 1%positive /\ t_id t = 2%positive /\ t_elapsed t = 0.
Proof.
  cbv zeta. split; [reflexivity|]. split; [reflexivity|].
  pose proof (at_most_one_timer no_lag owner_x [Keystroke "y"; Elapse 200])
    as (_ & _ & _ & H).
  split; [|split].
  - exact (proj1 (H Unmount 1%positive eq_refl (or_introl eq_refl))
             (or_introl eq_refl)).
  - exact (proj1 (H (Keystroke "x") 1%positive eq_refl (or_intror eq_refl))
             (or_intror eq_refl)).
  - exact (proj2 (H (Keystroke "yz") 1%positive eq_refl (or_intror eq_refl))).
Defined.


Lemma same_value_keeps_edit_witness :
  let w := run no_lag (mount owner_x) [Keystroke "y"; Elapse 200] in
  let p' := mkProps (Some "x") (Some 8%nat) (Some 500) in
  value p' = value (props w) /\
  internalValue w = "y" /\ internalValue (step no_lag w (Rerender p')) = "y".
Proof.
  cbv zeta. split; [reflexivity|]. split; [reflexivity|].
  exact (proj1 (same_value_keeps_edit no_lag owner_x
                  [Keystroke "y"; Elapse 200]
                  (mkProps (Some "x") (Some 8%nat) (Some 500))
                  ltac:(reflexivity))).
Defined.

Lemma keystroke_shows_at_once_witness :
  let w := run no_lag (mount owner_empty) [Keystroke "a"; Elapse 100] in
  mounted w = true /\
  internalValue (step no_lag w (Keystroke "ab")) = "ab" /\
  widget (step no_lag w (Keystroke "ab")) = "ab".
Proof.
  cbv zeta. split; [reflexivity|].
  pose proof (keystroke_shows_at_once no_lag owner_empty
                [Keystroke "a"; Elapse 100] "ab" ltac:(reflexivity))
    as (H1 & H2 & _).
  split; assumption.
Defined.

Lemma mutation_restarts_countdown_witness :
  let w := run no_lag (mount owner_empty) [Keystroke "a"; Elapse 2000] in
  debounceTimerRef w = Some 1%positive /\
  deps_change w (Keystroke "ab") = true /\
  diverged (step no_lag w (Keystroke "ab")) = true /\
  timers (step no_lag w (Keystroke "ab")) =
    [mkTimer 2 3000 0 (Some 7%nat) "ab"].
Proof.
  cbv zeta. repeat (split; [reflexivity|]).
  exact (proj1 (mutation_restarts_countdown no_lag owner_empty
                  [Keystroke "a"; Elapse 2000] (Keystroke "ab") 1%positive
                  ltac:(reflexivity) ltac:(reflexivity) ltac:(reflexivity))).
Defined.

(** C4, as the specification states it, fails: a keystroke whose text is the
    current [internalValue] changes no dependency, so the effect does not run
    again and the running timer keeps the 2000 ms it has already counted; it
    fires 1000 ms later, not 3000 ms later. *)
Lemma same_text_keystroke_does_not_restart :
  let w := run no_lag (mount owner_empty) [Keystroke "a"; Elapse 2000] in
  debounceTimerRef w = Some 1%positive /\
  diverged w = true /\
  internalValue w = "a" /\
  diverged (step no_lag w (Keystroke "a")) = true /\
  timers (step no_lag w (Keystroke "a")) =
    [mkTimer 1 3000 2000 (Some 7%nat) "a"] /\
  timers (step no_lag w (Keystroke "a")) <>
    [mkTimer 2 3000 0 (Some 7%nat) "a"] /\
  log (run no_lag w [Keystroke "a"; Elapse 1000]) =
    [mkCommit 1 7%nat (mkChangeEvent "a" "a")].
Proof.
  cbv zeta. repeat split; try reflexivity. vm_compute; discriminate.
Qed.

Lemma replaced_callback_or_delay_reschedules_witness :
  let w := run no_lag (mount owner_x) [Keystroke "y"; Elapse 200] in
  let p' := mkProps (Some "x") (Some 8%nat) (Some 600) in
  debounceTimerRef w = Some 1%positive /\
  value p' = value (props w) /\
  onChange p' <> onChange (props w) /\
  timers (step no_lag w (Rerender p')) = [mkTimer 2 600 0 (Some 8%nat) "y"] /\
  log (run no_lag (step no_lag w (Rerender p')) [Elapse 600]) =
    [mkCommit 2 8%nat (mkChangeEvent "y" "y")].
Proof.
  cbv zeta. split; [reflexivity|]. split; [reflexivity|].
  assert (H : onChange (mkProps (Some "x") (Some 8%nat) (Some 600)) <>
              onChange (props (run no_lag (mount owner_x)
                                 [Keystroke "y"; Elapse 200])))
    by (vm_compute; discriminate).
  split; [exact H|].
  pose proof (replaced_callback_or_delay_reschedules no_lag owner_x
                [Keystroke "y"; Elapse 200]
                (mkProps (Some "x") (Some 8%nat) (Some 600)) 1%positive
                ltac:(reflexivity) (or_introl H))
    as (H1 & _).
  split; [exact (proj1 (H1 eq_refl))|reflexivity].
Defined.

Lemma owner_adopting_text_goes_idle_witness :
  let w := run no_lag (mount owner_empty) [Keystroke "a"; Elapse 3000] in
  let w' := step no_lag w (Rerender (mkProps (Some "a") (Some 7%nat) None)) in
  mounted w = true /\
  log w = [mkCommit 1 7%nat (mkChangeEvent "a" "a")] /\
  timers w' = [] /\
  log (run no_lag w' (map Elapse [3000%N; 3000%N])) = log w.
Proof.
  cbv zeta. split; [reflexivity|]. split; [reflexivity|].
  pose proof (owner_adopting_text_goes_idle no_lag owner_empty
                [Keystroke "a"; Elapse 3000]
                (mkProps (Some "a") (Some 7%nat) None) [3000%N; 3000%N]
                ltac:(reflexivity) ltac:(reflexivity))
    as (_ & H1 & _ & _ & H2).
  split; assumption.
Defined.

Lemma no_callback_no_commit_witness :
  onChange (mkProps (Some "") None (Some 10)) = None /\
  Forall no_callback
    [Keystroke "a"; Elapse 10; Rerender (mkProps None None None);
     Keystroke "b"; Elapse 5000] /\
  log (run lag_1ms (mount (mkProps (Some "") None (Some 10)))
         [Keystroke "a"; Elapse 10; Rerender (mkProps None None None);
          Keystroke "b"; Elapse 5000]) = [].
Proof.
  assert (H : Forall no_callback
                [Keystroke "a"; Elapse 10; Rerender (mkProps None None None);
                 Keystroke "b"; Elapse 5000])
    by (repeat constructor).
  split; [reflexivity|]. split; [exact H|].
  exact (no_callback_no_commit lag_1ms (mkProps (Some "") None (Some 10)) _
           eq_refl H).
Defined.

Lemma stable_rerender_keeps_timer_witness :
  let w := run no_lag (mount owner_empty) [Keystroke "a"; Elapse 2000] in
  let p' := mkProps (Some "") (Some 7%nat) (Some 3000) in
  value p' = value (props w) /\
  onChange p' = onChange (props w) /\
  delayOf p' = delayOf (props w) /\
  timers (step no_lag w (Rerender p')) =
    [mkTimer 1 3000 2000 (Some 7%nat) "a"].
Proof.
  cbv zeta. repeat (split; [reflexivity|]).
  pose proof (stable_rerender_keeps_timer no_lag owner_empty
                [Keystroke "a"; Elapse 2000]
                (mkProps (Some "") (Some 7%nat) (Some 3000))
                ltac:(reflexivity) ltac:(reflexivity) ltac:(reflexivity))
    as (H & _).
  rewrite H. reflexivity.
Defined.

Lemma commits_carry_known_text_witness :
  In (mkCommit 1 7%nat (mkChangeEvent "x" "x"))
     (log (run lag_1ms (mount (mkProps (Some "x") (Some 7%nat) (Some 0)))
             [Rerender (mkProps (Some "z") (Some 7%nat) (Some 0))])) /\
  known_text (mkProps (Some "x") (Some 7%nat) (Some 0))
    [Rerender (mkProps (Some "z") (Some 7%nat) (Some 0))] "x".
Proof.
  assert (H : In (mkCommit 1 7%nat (mkChangeEvent "x" "x"))
                (log (run lag_1ms
                        (mount (mkProps (Some "x") (Some 7%nat) (Some 0)))
                        [Rerender (mkProps (Some "z") (Some 7%nat) (Some 0))])))
    by (left; reflexivity).
  split; [exact H|].
  exact (proj1 (commits_carry_known_text lag_1ms _ _ _ H)).
Defined.


End DebouncedTextInput.
